(** * Space-Invaders entities: Player, Bullet, Wall, Enemy

    A shallow embedding of [player_module.py].  Python integers are
    unbounded, so every counter and coordinate is a [Z].  The pygame
    objects the module relies on ([Surface], [Rect], [Sprite] group
    membership) are modelled just far enough to run the methods: a surface
    has a size, pixels and a colour key, a rectangle has integer
    [x], [y], [w], [h], and a sprite remembers the groups it belongs to.

    The file on disk holds the module twice; the second set of class
    definitions is the one Python keeps, and it is the one embedded here.
    The single method that only the first copy has, [Player.heal], is
    embedded next to the methods of the second copy. *)

From Stdlib Require Import ZArith List Bool String Lia.
Import ListNotations.
Open Scope Z_scope.

(** SCREEN_WIDTH, SCREEN_HEIGHT = 800, 600 *)
Definition SCREEN_WIDTH : Z := 800.
Definition SCREEN_HEIGHT : Z := 600.

(** ** The pygame objects used by the module *)

Module Pygame.

Definition color : Type := (Z * Z * Z)%type.

Definition color_eqb (c d : color) : bool :=
  let '(r1, g1, b1) := c in
  let '(r2, g2, b2) := d in
  (r1 =? r2) && (g1 =? g2) && (b1 =? b2).

(** A surface: its size, its pixels (RGB, alpha left out) and the colour
    that is drawn transparent, if one was set. *)
Record Surface : Type := mkSurface {
  surf_w : Z;
  surf_h : Z;
  get_at : Z -> Z -> color;
  colorkey : option color
}.

(** pygame.Surface((w, h)): a black surface. *)
Definition new_surface (w h : Z) : Surface :=
  mkSurface w h (fun _ _ => (0, 0, 0)) None.

Definition fill (s : Surface) (c : color) : Surface :=
  mkSurface (surf_w s) (surf_h s) (fun _ _ => c) (colorkey s).

Definition set_colorkey (s : Surface) (c : color) : Surface :=
  mkSurface (surf_w s) (surf_h s) (get_at s) (Some c).

(** A rectangle; [rect_x], [rect_y] is the top-left corner. *)
Record Rect : Type := mkRect {
  rect_x : Z;
  rect_y : Z;
  rect_w : Z;
  rect_h : Z
}.

Definition left (r : Rect) : Z := rect_x r.
Definition top (r : Rect) : Z := rect_y r.
Definition right (r : Rect) : Z := rect_x r + rect_w r.
Definition bottom (r : Rect) : Z := rect_y r + rect_h r.
Definition centerx (r : Rect) : Z := rect_x r + rect_w r / 2.
Definition centery (r : Rect) : Z := rect_y r + rect_h r / 2.
Definition center (r : Rect) : Z * Z := (centerx r, centery r).

Definition set_x (v : Z) (r : Rect) : Rect :=
  mkRect v (rect_y r) (rect_w r) (rect_h r).
Definition set_y (v : Z) (r : Rect) : Rect :=
  mkRect (rect_x r) v (rect_w r) (rect_h r).
Definition set_left (v : Z) (r : Rect) : Rect := set_x v r.
Definition set_right (v : Z) (r : Rect) : Rect := set_x (v - rect_w r) r.
Definition set_center (c : Z * Z) (r : Rect) : Rect :=
  mkRect (fst c - rect_w r / 2) (snd c - rect_h r / 2) (rect_w r) (rect_h r).

(** image.get_rect(): the surface's size, placed at the origin. *)
Definition get_rect (s : Surface) : Rect :=
  mkRect 0 0 (surf_w s) (surf_h s).

(** image.get_rect(center=c) *)
Definition get_rect_center (s : Surface) (c : Z * Z) : Rect :=
  set_center c (get_rect s).

(** os.path.join(a, b) *)
Definition path_join (a b : string) : string := (a ++ "/" ++ b)%string.

(** xs[i] on a Python list: a negative index counts from the end; [None]
    stands for IndexError. *)
Definition getitem {A : Type} (xs : list A) (i : Z) : option A :=
  let n := Z.of_nat (List.length xs) in
  if (0 <=? i) && (i <? n) then nth_error xs (Z.to_nat i)
  else if (- n <=? i) && (i <? 0) then nth_error xs (Z.to_nat (n + i))
  else None.

(** The groups a Sprite is a member of.  A fresh sprite is in none, the
    game loop adds it, and kill() takes it out of all of them. *)
Definition groups_t : Type := list nat.

End Pygame.

Import Pygame.

(** pygame.image.load(path).convert(), for the texture files the module
    ships with: the loader is a parameter of every definition that loads.
    It is total: Player, Bullet and Wall do not handle a missing file, the
    load raises and no object exists. *)
Definition loader : Type := string -> Surface.

(** The same call where the module handles FileNotFoundError ([None]). *)
Definition try_loader : Type := string -> option Surface.

Definition remove_color (image : Surface) (c : color) : Surface :=
  set_colorkey image c.

Definition change_color (image : Surface) (old_color new_color : color) : Surface :=
  mkSurface (surf_w image) (surf_h image)
    (fun x y => if color_eqb (get_at image x y) old_color then new_color
                else get_at image x y)
    (colorkey image).

Definition MAGENTA : color := (255, 0, 255).
Definition WHITE : color := (255, 255, 255).

(** ** Player *)

Module Player.

Definition K_a : Z := 97.
Definition K_d : Z := 100.

Record t : Type := mk {
  index : Z;
  left_key : Z;
  right_key : Z;
  lives : Z;
  image : Surface;
  rect : Rect;
  speed : Z
}.

Definition with_rect (p : t) (r : Rect) : t :=
  mk (index p) (left_key p) (right_key p) (lives p) (image p) r (speed p).

Definition with_lives (p : t) (l : Z) : t :=
  mk (index p) (left_key p) (right_key p) l (image p) (rect p) (speed p).

Definition with_image (p : t) (i : Surface) : t :=
  mk (index p) (left_key p) (right_key p) (lives p) i (rect p) (speed p).

Definition __init__ (load : loader) (screen_width screen_height : Z)
    (index left_key right_key : Z) : t :=
  let player_path := path_join "Textures" "Player.png" in
  let image := remove_color (load player_path) MAGENTA in
  let image :=
    if index =? 1 then change_color image WHITE (255, 0, 0)
    else change_color image WHITE (0, 0, 255) in
  let rect := set_center (screen_width / 2, screen_height - 50) (get_rect image) in
  mk index left_key right_key 3 image rect 5.

(** [keys] is the table of pressed keys, indexed by key code. *)
Definition update (p : t) (keys : Z -> bool) : t :=
  let r := rect p in
  let r := if keys (left_key p) then set_x (rect_x r - speed p) r else r in
  let r := if keys (right_key p) then set_x (rect_x r + speed p) r else r in
  let r :=
    if left r <? 0 then set_left 0 r
    else if right r >? SCREEN_WIDTH then set_right SCREEN_WIDTH r
    else r in
  with_rect p r.

Definition set_color (p : t) (new_color : color) : t :=
  with_image p (change_color (image p) WHITE new_color).

Definition set_controls (p : t) (l r : Z) : t :=
  mk (index p) l r (lives p) (image p) (rect p) (speed p).

Definition take_damage (p : t) (amount : Z) : t :=
  with_lives p (Z.max 0 (lives p - amount)).

(** self.lives = max(0, self.lives == 3): the comparison is a Python
    bool, which is the integer 1 or 0. *)
Definition heal (p : t) : t :=
  with_lives p (Z.max 0 (Z.b2z (lives p =? 3))).

(** The calls the game loop makes on a player. *)
Inductive call : Type :=
| Update (keys : Z -> bool)
| TakeDamage (amount : Z)
| Heal.

Definition step (p : t) (c : call) : t :=
  match c with
  | Update keys => update p keys
  | TakeDamage amount => take_damage p amount
  | Heal => heal p
  end.

Definition run (p : t) (cs : list call) : t := fold_left step cs p.

Definition is_heal (c : call) : bool :=
  match c with Heal => true | _ => false end.

Definition nonneg_damage (c : call) : Prop :=
  match c with TakeDamage amount => 0 <= amount | _ => True end.

(** The rectangle after the two key tests of update(), before it is
    brought back onto the screen. *)
Definition moved (p : t) (keys : Z -> bool) : Rect :=
  let r := rect p in
  let r := if keys (left_key p) then set_x (rect_x r - speed p) r else r in
  if keys (right_key p) then set_x (rect_x r + speed p) r else r.

End Player.

(** ** Bullet *)

Module Bullet.

(** The two lists of frames are filled by the constructor and never
    assigned again; [images] depends on the owner only. *)
Definition images_of (load : loader) (is_enemy : bool) : list Surface :=
  [ remove_color (load (path_join "Textures"
      (if is_enemy then "EnemyBullet1.png" else "PlayerBullet1.png"))) MAGENTA;
    remove_color (load (path_join "Textures"
      (if is_enemy then "EnemyBullet2.png" else "PlayerBullet2.png"))) MAGENTA ].

Definition explosion_images_of (load : loader) : list Surface :=
  [ remove_color (load (path_join "Textures" "ExplosionPhase1.png")) MAGENTA;
    remove_color (load (path_join "Textures" "ExplosionPhase2.png")) MAGENTA;
    remove_color (load (path_join "Textures" "ExplosionPhase3.png")) MAGENTA ].

Record t : Type := mk {
  is_enemy : bool;
  images : list Surface;
  explosion_images : list Surface;
  image_index : Z;
  image : Surface;
  rect : Rect;
  speed : Z;
  exploding : bool;
  explosion_index : Z;
  explosion_timer : Z;
  groups : groups_t
}.

(** A lookup that the code guards, or that stays in range because the
    index was just reduced modulo the length: the current image is kept
    where Python would raise IndexError. *)
Definition frame (b : t) (xs : list Surface) (i : Z) : Surface :=
  match getitem xs i with Some s => s | None => image b end.

Definition __init__ (load : loader) (x y : Z) (is_enemy : bool) : t :=
  let images := images_of load is_enemy in
  let explosion_images := explosion_images_of load in
  let image_index := 0 in
  let image := match getitem images image_index with
               | Some s => s
               | None => new_surface 0 0
               end in
  let rect := set_center (x, y) (get_rect image) in
  mk is_enemy images explosion_images image_index image rect
     (if is_enemy then 5 else -5) false 0 0 [].

(** Sprite.add(group) and Sprite.kill() *)
Definition add (g : nat) (b : t) : t :=
  mk (is_enemy b) (images b) (explosion_images b) (image_index b) (image b)
     (rect b) (speed b) (exploding b) (explosion_index b) (explosion_timer b)
     (g :: groups b).

Definition kill (b : t) : t :=
  mk (is_enemy b) (images b) (explosion_images b) (image_index b) (image b)
     (rect b) (speed b) (exploding b) (explosion_index b) (explosion_timer b)
     [].

Definition alive (b : t) : bool :=
  match groups b with [] => false | _ :: _ => true end.

Definition trigger_explosion (b : t) : t :=
  let image := frame b (explosion_images b) 0 in
  mk (is_enemy b) (images b) (explosion_images b) (image_index b) image
     (get_rect_center image (center (rect b))) (speed b) true
     (explosion_index b) (explosion_timer b) (groups b).

Definition update (b : t) : t :=
  if exploding b then
    let timer := explosion_timer b + 1 in
    if timer mod 5 =? 0 then
      let idx := explosion_index b + 1 in
      if idx <? Z.of_nat (List.length (explosion_images b)) then
        mk (is_enemy b) (images b) (explosion_images b) (image_index b)
           (frame b (explosion_images b) idx)
           (rect b) (speed b) (exploding b) idx timer (groups b)
      else
        kill (mk (is_enemy b) (images b) (explosion_images b) (image_index b)
                 (image b) (rect b) (speed b) (exploding b) idx timer (groups b))
    else
      mk (is_enemy b) (images b) (explosion_images b) (image_index b) (image b)
         (rect b) (speed b) (exploding b) (explosion_index b) timer (groups b)
  else
    let r := set_y (rect_y (rect b) + speed b) (rect b) in
    let i := (image_index b + 1) mod Z.of_nat (List.length (images b)) in
    let b' :=
      mk (is_enemy b) (images b) (explosion_images b) i
         (frame b (images b) i) r (speed b) (exploding b)
         (explosion_index b) (explosion_timer b) (groups b) in
    if (bottom r <? 0) || (top r >? SCREEN_HEIGHT) then trigger_explosion b'
    else b'.

(** The state after [n] calls of update(). *)
Definition updates (n : nat) (b : t) : t := Nat.iter n update b.

(** The rectangle a flying bullet has after its move, before the
    off-screen test. *)
Definition moved (b : t) : Rect :=
  set_y (rect_y (rect b) + speed b) (rect b).

(** What the constructor establishes about the two frame lists. *)
Definition well_formed (b : t) : Prop :=
  List.length (images b) = 2%nat /\ List.length (explosion_images b) = 3%nat.

End Bullet.

(** ** Wall *)

Module Wall.

Record t : Type := mk {
  states : list string;
  image : Surface;
  rect : Rect;
  health : Z;
  state_index : Z;
  groups : groups_t
}.

Definition add (g : nat) (w : t) : t :=
  mk (states w) (image w) (rect w) (health w) (state_index w) (g :: groups w).

Definition kill (w : t) : t :=
  mk (states w) (image w) (rect w) (health w) (state_index w) [].

Definition alive (w : t) : bool :=
  match groups w with [] => false | _ :: _ => true end.

(** pygame.image.load(self.states[i]).convert(), then remove_color; the
    current image is kept where the index is out of range. *)
Definition state_image (load : loader) (w : t) (i : Z) : Surface :=
  match getitem (states w) i with
  | Some path => remove_color (load path) MAGENTA
  | None => image w
  end.

Definition __init__ (load : loader) (x y : Z) : t :=
  let states :=
    [ path_join "Textures" "WallState1.png";
      path_join "Textures" "WallState2.png";
      path_join "Textures" "WallState3.png" ] in
  let image := remove_color (load (path_join "Textures" "WallState1.png")) MAGENTA in
  mk states image (get_rect_center image (x, y)) 25 0 [].

Definition take_damage (load : loader) (w : t) : t :=
  let health := health w - 1 in
  let w1 :=
    if (health <=? 6) && (state_index w <? 2) then
      let state_index := state_index w + 1 in
      mk (states w) (state_image load w state_index) (rect w) health
         state_index (groups w)
    else
      mk (states w) (image w) (rect w) health (state_index w) (groups w) in
  if health <=? 0 then kill w1 else w1.

Definition reset (load : loader) (w : t) : t :=
  mk (states w) (state_image load w 0) (rect w) 10 0 (groups w).

Inductive call : Type :=
| TakeDamage
| Reset.

Definition step (load : loader) (w : t) (c : call) : t :=
  match c with
  | TakeDamage => take_damage load w
  | Reset => reset load w
  end.

Definition run (load : loader) (w : t) (cs : list call) : t :=
  fold_left (step load) cs w.

(** The state after [n] calls of take_damage(). *)
Definition damaged (load : loader) (n : nat) (w : t) : t :=
  Nat.iter n (take_damage load) w.

End Wall.

(** ** Enemy *)

Module Enemy.

Record t : Type := mk {
  image : Surface;
  rect : Rect;
  health : Z;
  speed : Z;
  direction : Z;
  can_shoot : bool;
  shooting_timer : Z;
  shooting_cooldown : Z;
  move_delay : Z;
  current_frame : Z;
  groups : groups_t
}.

Definition add (g : nat) (e : t) : t :=
  mk (image e) (rect e) (health e) (speed e) (direction e) (can_shoot e)
     (shooting_timer e) (shooting_cooldown e) (move_delay e) (current_frame e)
     (g :: groups e).

Definition kill (e : t) : t :=
  mk (image e) (rect e) (health e) (speed e) (direction e) (can_shoot e)
     (shooting_timer e) (shooting_cooldown e) (move_delay e) (current_frame e)
     [].

Definition __init__ (try_load : try_loader) (x y : Z) (image_path : string) : t :=
  let image :=
    match try_load (path_join "Textures" image_path) with
    | Some s => s
    | None => fill (new_surface 50 40) (255, 0, 0)
    end in
  let image := set_colorkey image MAGENTA in
  mk image (get_rect_center image (x, y)) 1 10 1 true 10 1 10 0 [].

Definition update (e : t) : t :=
  let current_frame := current_frame e + 1 in
  let '(rect, direction, current_frame) :=
    if current_frame >=? move_delay e then
      let r := set_x (rect_x (rect e) + speed e * direction e) (rect e) in
      if (right r >=? SCREEN_WIDTH) || (left r <=? 0) then
        (set_y (rect_y r + 20) r, direction e * -1, 0)
      else
        (r, direction e, 0)
    else
      (rect e, direction e, current_frame) in
  let '(shooting_timer, can_shoot) :=
    if shooting_timer e >? 0 then (shooting_timer e - 1, can_shoot e)
    else (shooting_timer e, true) in
  mk (image e) rect (health e) (speed e) direction can_shoot shooting_timer
     (shooting_cooldown e) (move_delay e) current_frame (groups e).

(** shoot() returns the bullet, or None. *)
Definition shoot (load : loader) (e : t) : t * option Bullet.t :=
  if can_shoot e then
    (mk (image e) (rect e) (health e) (speed e) (direction e) false
        (shooting_cooldown e) (shooting_cooldown e) (move_delay e)
        (current_frame e) (groups e),
     Some (Bullet.__init__ load (centerx (rect e)) (bottom (rect e)) true))
  else (e, None).

Definition take_damage (e : t) : t :=
  let e1 :=
    mk (image e) (rect e) (health e - 1) (speed e) (direction e) (can_shoot e)
       (shooting_timer e) (shooting_cooldown e) (move_delay e)
       (current_frame e) (groups e) in
  if health e1 <=? 0 then kill e1 else e1.

Definition set_color (e : t) (c : color) : t :=
  let image :=
    mkSurface (surf_w (image e)) (surf_h (image e))
      (fun x y =>
         if (0 <=? x) && (x <? surf_w (image e)) && (0 <=? y) && (y <? surf_h (image e))
            && negb (color_eqb (get_at (image e) x y) MAGENTA)
         then c else get_at (image e) x y)
      (colorkey (image e)) in
  mk image (rect e) (health e) (speed e) (direction e) (can_shoot e)
     (shooting_timer e) (shooting_cooldown e) (move_delay e) (current_frame e)
     (groups e).

(** The state after [n] calls of update(). *)
Definition updates (n : nat) (e : t) : t := Nat.iter n update e.

(** The calls the game loop makes for shooting: a tick, or an attempt to
    fire.  [run] returns the final state and the bullets produced, the
    latest first. *)
Inductive call : Type :=
| Update
| Shoot.

Definition step (load : loader) (st : t * list Bullet.t) (c : call)
    : t * list Bullet.t :=
  match c with
  | Update => (update (fst st), snd st)
  | Shoot =>
      match shoot load (fst st) with
      | (e, Some b) => (e, b :: snd st)
      | (e, None) => (e, snd st)
      end
  end.

Definition run (load : loader) (e : t) (cs : list call) : t * list Bullet.t :=
  fold_left (step load) cs (e, []).

Definition is_update (c : call) : bool :=
  match c with Update => true | Shoot => false end.

Definition ticks (cs : list call) : Z :=
  Z.of_nat (List.length (filter is_update cs)).

End Enemy.

(** ** Textures used in the worked examples *)

(** Every texture is 8 wide and 10 high, all white. *)
Definition small_textures : loader :=
  fun _ => mkSurface 8 10 (fun _ _ => WHITE) None.

(** A player sprite wider than the screen. *)
Definition wide_textures : loader :=
  fun _ => mkSurface 900 30 (fun _ _ => WHITE) None.

Definition no_keys : Z -> bool := fun _ => false.

(** ** Further notions used in the properties below *)

(** Pixel (x, y) lies on the surface: the range the pixel loops visit. *)
Definition on_surface (s : Surface) (x y : Z) : Prop :=
  0 <= x < surf_w s /\ 0 <= y < surf_h s.

(** Sprite.alive() for an enemy, and the state after [n] calls of
    Enemy.take_damage(). *)
Definition enemy_alive (e : Enemy.t) : bool :=
  match Enemy.groups e with [] => false | _ :: _ => true end.

Definition enemy_damaged (n : nat) (e : Enemy.t) : Enemy.t :=
  Nat.iter n Enemy.take_damage e.

(** What holds of a bullet [n] update() calls after its construction:
    the frame lists are the constructor's, the flight frame index is 0 or
    1 and follows the parity of [n] while the bullet flies, the explosion
    frame index is the explosion timer divided by 5, and the image on show
    is the frame the index in use points at. *)
Definition bullet_inv (load : loader) (is_enemy : bool) (n : nat)
    (b : Bullet.t) : Prop :=
  Bullet.images b = Bullet.images_of load is_enemy /\
  Bullet.explosion_images b = Bullet.explosion_images_of load /\
  0 <= Bullet.image_index b < 2 /\
  0 <= Bullet.explosion_timer b /\
  Bullet.explosion_index b = Bullet.explosion_timer b / 5 /\
  (Bullet.exploding b = false ->
   Bullet.explosion_timer b = 0 /\
   Bullet.image_index b = Z.of_nat n mod 2 /\
   getitem (Bullet.images b) (Bullet.image_index b) = Some (Bullet.image b)) /\
  (Bullet.exploding b = true -> Bullet.explosion_index b < 3 ->
   getitem (Bullet.explosion_images b) (Bullet.explosion_index b)
   = Some (Bullet.image b)).

(** ** Rectangles *)

Section RectFacts.

Variable r : Rect.

Lemma right_set_right (v : Z) : right (set_right v r) = v.
Proof. unfold right, set_right, set_x; simpl; lia. Qed.

Lemma left_set_right (v : Z) : left (set_right v r) = v - rect_w r.
Proof. reflexivity. Qed.

Lemma left_set_left (v : Z) : left (set_left v r) = v.
Proof. reflexivity. Qed.

Lemma right_set_left (v : Z) : right (set_left v r) = v + rect_w r.
Proof. reflexivity. Qed.

Lemma center_set_center (c : Z * Z) : center (set_center c r) = c.
Proof.
  destruct c as [cx cy]; unfold center, centerx, centery, set_center; simpl.
  f_equal; lia.
Qed.

End RectFacts.

Lemma center_get_rect_center (s : Surface) (c : Z * Z) :
  center (get_rect_center s c) = c.
Proof. apply center_set_center. Qed.

(** A boolean sequence that starts false, is true at some point and never
    falls back has a single switching point. *)
Lemma single_switch (P : nat -> bool) :
  P 0%nat = false ->
  (forall k, P k = true -> P (S k) = true) ->
  forall N, P N = true ->
  exists n, forall k, P k = true <-> (n < k)%nat.
Proof.
  intros H0 Hstep N; induction N as [|N IH]; intros HN.
  - congruence.
  - destruct (P N) eqn:E.
    + apply IH; reflexivity.
    + exists N; intros k; split.
      * intros Hk. destruct (Nat.lt_ge_cases N k) as [|Hle]; [assumption|].
        exfalso.
        assert (Hup : forall d, P (k + d)%nat = true).
        { induction d as [|d IHd].
          - now rewrite Nat.add_0_r.
          - rewrite Nat.add_succ_r. now apply Hstep. }
        specialize (Hup (N - k)%nat).
        replace (k + (N - k))%nat with N in Hup by lia. congruence.
      * intros Hk.
        assert (Hup : forall d, P (S N + d)%nat = true).
        { induction d as [|d IHd].
          - now rewrite Nat.add_0_r.
          - rewrite Nat.add_succ_r. now apply Hstep. }
        specialize (Hup (k - S N)%nat).
        now replace (S N + (k - S N))%nat with k in Hup by lia.
Qed.

(** ** Bullet: flight and explosion *)

Section BulletFacts.

Import Bullet.

Lemma updates_S (n : nat) (b : Bullet.t) :
  updates (S n) b = update (updates n b).
Proof. reflexivity. Qed.

Lemma update_exploding_stays (b : Bullet.t) :
  exploding b = true -> exploding (update b) = true.
Proof.
  intros H; unfold update; rewrite H.
  destruct ((explosion_timer b + 1) mod 5 =? 0);
    [destruct (explosion_index b + 1 <? _)|]; reflexivity.
Qed.

Lemma update_flying_trigger (b : Bullet.t) :
  exploding b = false ->
  (exploding (update b) = true <->
   bottom (moved b) < 0 \/ top (moved b) > SCREEN_HEIGHT).
Proof.
  intros H; unfold update; rewrite H; fold (moved b).
  destruct ((bottom (moved b) <? 0) || (top (moved b) >? SCREEN_HEIGHT)) eqn:E;
    simpl.
  - split; [intros _|reflexivity].
    apply orb_true_iff in E; destruct E as [E|E].
    + left; apply Z.ltb_lt in E; unfold bottom, moved in *; simpl in *; lia.
    + right; apply Z.gtb_lt in E; unfold top, moved in *; simpl in *; lia.
  - split; [discriminate|].
    apply orb_false_iff in E; destruct E as [E1 E2].
    apply Z.ltb_ge in E1. rewrite Z.gtb_ltb in E2. apply Z.ltb_ge in E2.
    unfold bottom, top, moved in *; simpl in *.
    intros [Hc|Hc]; lia.
Qed.

Lemma update_flying_keeps (b : Bullet.t) :
  exploding (update b) = false ->
  exploding b = false /\ speed (update b) = speed b /\
  rect (update b) = moved b.
Proof.
  intros H. destruct (exploding b) eqn:E.
  - rewrite (update_exploding_stays b E) in H; discriminate.
  - revert H; unfold update; rewrite E; fold (moved b).
    destruct (_ || _); simpl; intros; [discriminate|auto].
Qed.

Lemma updates_exploding_stays (n m : nat) (b : Bullet.t) :
  (n <= m)%nat -> exploding (updates n b) = true ->
  exploding (updates m b) = true.
Proof.
  induction 1 as [|m _ IH]; intros H; [assumption|].
  rewrite updates_S. apply update_exploding_stays, IH, H.
Qed.

Lemma updates_flying (n : nat) (b : Bullet.t) :
  exploding (updates n b) = false ->
  speed (updates n b) = speed b /\
  rect_y (rect (updates n b)) = rect_y (rect b) + Z.of_nat n * speed b /\
  rect_h (rect (updates n b)) = rect_h (rect b).
Proof.
  induction n as [|n IH]; intros H.
  - simpl; repeat split; lia.
  - rewrite updates_S in *.
    destruct (update_flying_keeps _ H) as (Hf & Hs & Hr).
    destruct (IH Hf) as (IHs & IHy & IHh).
    rewrite Hs, Hr, Nat2Z.inj_succ; unfold moved, set_y; cbn [rect_y rect_h].
    repeat split; try assumption; lia.
Qed.

Lemma eventually_exploding (b : Bullet.t) :
  speed b <> 0 -> exists N, exploding (updates N b) = true.
Proof.
  intros Hs.
  set (y0 := rect_y (rect b)). set (h := rect_h (rect b)).
  exists (S (Z.to_nat (Z.max (SCREEN_HEIGHT - y0) (y0 + h)))).
  set (M := Z.to_nat _).
  destruct (exploding (updates (S M) b)) eqn:E; [reflexivity|exfalso].
  rewrite updates_S in E.
  destruct (update_flying_keeps _ E) as (Hf & _ & _).
  destruct (updates_flying _ _ Hf) as (Hsp & Hy & Hh).
  assert (Hno : ~ (bottom (moved (updates M b)) < 0
                   \/ top (moved (updates M b)) > SCREEN_HEIGHT)).
  { intros Hc. apply (update_flying_trigger _ Hf) in Hc. congruence. }
  apply Hno. unfold bottom, top, moved; simpl. rewrite Hsp, Hy, Hh.
  fold y0 h.
  assert (HM : Z.max (SCREEN_HEIGHT - y0) (y0 + h) <= Z.of_nat M) by (unfold M; lia).
  destruct (Z.lt_total (speed b) 0) as [Hneg|[Hz|Hpos]]; [left|contradiction|right]; nia.
Qed.

End BulletFacts.

Section BulletInvariant.

Import Bullet.

Lemma init_well_formed (load : loader) (x y : Z) (e : bool) :
  well_formed (__init__ load x y e).
Proof. split; reflexivity. Qed.

Lemma trigger_explosion_well_formed (b : Bullet.t) :
  well_formed b -> well_formed (trigger_explosion b).
Proof. intros H; exact H. Qed.

Lemma update_well_formed (b : Bullet.t) :
  well_formed b -> well_formed (update b).
Proof.
  intros H; unfold update.
  destruct (exploding b).
  - destruct (_ =? 0); [destruct (_ <? _)|]; exact H.
  - destruct (_ || _); exact H.
Qed.

(** While a bullet flies its explosion counters are the constructor's. *)
Lemma flying_counters (load : loader) (x y : Z) (e : bool) (n : nat) :
  let b := updates n (__init__ load x y e) in
  exploding b = false -> explosion_timer b = 0 /\ explosion_index b = 0.
Proof.
  induction n as [|n IH]; simpl; intros H.
  - split; reflexivity.
  - fold (updates n (__init__ load x y e)) in *.
    destruct (update_flying_keeps _ H) as (Hf & _ & _).
    destruct (IH Hf) as [Ht Hi].
    revert H; unfold update; rewrite Hf.
    destruct (_ || _); simpl; intros; [discriminate|auto].
Qed.

End BulletInvariant.

(** C1, as amended.  Once a bullet explodes, update() leaves it exploding.
    A flying bullet starts to explode on an update() call exactly when the
    rectangle it has after its move lies wholly off the screen
    (bottom < 0 or top > SCREEN_HEIGHT).  And for a flying bullet whose
    speed is not 0 there is one call that switches it: it flies up to some
    call [n] and explodes after every later one. *)
Theorem bullet_explodes_once (b : Bullet.t) :
  (Bullet.exploding b = true -> Bullet.exploding (Bullet.update b) = true) /\
  (Bullet.exploding b = false ->
   (Bullet.exploding (Bullet.update b) = true <->
    bottom (Bullet.moved b) < 0 \/ top (Bullet.moved b) > SCREEN_HEIGHT)) /\
  (Bullet.exploding b = false -> Bullet.speed b <> 0 ->
   exists n, forall k,
     Bullet.exploding (Bullet.updates k b) = true <-> (n < k)%nat).
Proof.
  split; [apply update_exploding_stays|].
  split; [apply update_flying_trigger|].
  intros Hf Hs.
  destruct (eventually_exploding b Hs) as [N HN].
  apply (single_switch (fun k => Bullet.exploding (Bullet.updates k b))) with (N := N).
  - exact Hf.
  - intros k Hk. rewrite updates_S. now apply update_exploding_stays.
  - exact HN.
Qed.

Lemma bullet_explodes_once_witness :
  let b := Bullet.__init__ small_textures 100 9 false in
  Bullet.exploding b = false /\ Bullet.speed b <> 0 /\
  exists n, forall k,
    Bullet.exploding (Bullet.updates k b) = true <-> (n < k)%nat.
Proof.
  split; [reflexivity|].
  split; [discriminate|].
  apply (bullet_explodes_once (Bullet.__init__ small_textures 100 9 false));
    [reflexivity|discriminate].
Defined.

(** C1 as written fails: a player bullet whose top has crossed the upper
    edge while its bottom is still on the screen keeps flying. *)
Lemma bullet_top_exit_keeps_flying :
  let b := Bullet.__init__ small_textures 100 9 false in
  ~ (Bullet.exploding (Bullet.update b) = true <->
     top (Bullet.moved b) < 0 \/ bottom (Bullet.moved b) > SCREEN_HEIGHT).
Proof.
  intros b [_ H].
  assert (Ht : top (Bullet.moved b) < 0) by (vm_compute; reflexivity).
  specialize (H (or_introl Ht)). vm_compute in H. discriminate.
Qed.

(** C2.  A live bullet whose explosion counters are 0 and that has just
    been sent into its explosion by trigger_explosion() is removed from
    its groups by the 15th update() call, and by none before it. *)
Theorem explosion_lasts_15_ticks (b : Bullet.t) :
  Bullet.well_formed b ->
  Bullet.explosion_timer b = 0 ->
  Bullet.explosion_index b = 0 ->
  Bullet.alive b = true ->
  let b0 := Bullet.trigger_explosion b in
  Bullet.alive (Bullet.updates 15 b0) = false /\
  forall n, (n < 15)%nat ->
    Bullet.alive (Bullet.updates n b0) = true /\
    Bullet.groups (Bullet.updates n b0) = Bullet.groups b.
Proof.
  destruct b as [en im ex ii img r sp expl ei et gs].
  unfold Bullet.well_formed; simpl.
  intros [_ H3] Ht Hi Ha; subst.
  destruct ex as [|s1 [|s2 [|s3 [|s4 ex]]]]; try discriminate.
  destruct gs as [|g gs]; [discriminate|].
  split; [reflexivity|].
  intros n Hn.
  do 15 (destruct n as [|n]; [split; reflexivity|]).
  lia.
Qed.

Lemma explosion_lasts_15_ticks_witness :
  let b := Bullet.add 1%nat (Bullet.__init__ small_textures 100 300 true) in
  let b0 := Bullet.trigger_explosion b in
  Bullet.alive (Bullet.updates 15 b0) = false /\
  forall n, (n < 15)%nat ->
    Bullet.alive (Bullet.updates n b0) = true /\
    Bullet.groups (Bullet.updates n b0) = Bullet.groups b.
Proof.
  apply (explosion_lasts_15_ticks
           (Bullet.add 1%nat (Bullet.__init__ small_textures 100 300 true)));
    [split; reflexivity|reflexivity|reflexivity|reflexivity].
Defined.

(** ** Wall: damage, removal and reset *)

Section WallFacts.

Import Wall.

Variable load : loader.

Lemma take_damage_health (w : Wall.t) :
  health (take_damage load w) = health w - 1.
Proof.
  unfold take_damage.
  destruct (_ && _); destruct (health w - 1 <=? 0); reflexivity.
Qed.

Lemma take_damage_alive (w : Wall.t) :
  alive (take_damage load w) = alive w && negb (health w - 1 <=? 0).
Proof.
  unfold take_damage, alive.
  destruct (_ && _); destruct (health w - 1 <=? 0); simpl;
    destruct (groups w); reflexivity.
Qed.

Lemma take_damage_state_index (w : Wall.t) :
  state_index (take_damage load w) =
  if (health w - 1 <=? 6) && (state_index w <? 2) then state_index w + 1
  else state_index w.
Proof.
  unfold take_damage.
  destruct (_ && _); destruct (health w - 1 <=? 0); reflexivity.
Qed.

Lemma take_damage_states (w : Wall.t) :
  states (take_damage load w) = states w.
Proof.
  unfold take_damage.
  destruct (_ && _); destruct (health w - 1 <=? 0); reflexivity.
Qed.

Lemma damaged_S (n : nat) (w : Wall.t) :
  damaged load (S n) w = take_damage load (damaged load n w).
Proof. reflexivity. Qed.

Lemma damaged_health (n : nat) (w : Wall.t) :
  health (damaged load n w) = health w - Z.of_nat n.
Proof.
  induction n as [|n IH].
  - simpl; lia.
  - rewrite damaged_S, take_damage_health, IH; lia.
Qed.

Lemma damaged_alive (n : nat) (w : Wall.t) :
  alive w = true ->
  (alive (damaged load n w) = false <->
   (1 <= n)%nat /\ health w <= Z.of_nat n).
Proof.
  intros Ha; induction n as [|n IH].
  - simpl; rewrite Ha; split; [discriminate|lia].
  - rewrite damaged_S, take_damage_alive, damaged_health.
    rewrite andb_false_iff, negb_false_iff, Z.leb_le, IH. lia.
Qed.

Lemma run_snoc (w : Wall.t) (cs : list call) (c : call) :
  run load w (cs ++ [c]) = step load (run load w cs) c.
Proof. unfold run; now rewrite fold_left_app. Qed.

Lemma run_states (w : Wall.t) (cs : list call) :
  states (run load w cs) = states w.
Proof.
  induction cs as [|c cs IH] using rev_ind; [reflexivity|].
  rewrite run_snoc; destruct c; simpl; [rewrite take_damage_states|]; exact IH.
Qed.

Lemma run_state_index (w : Wall.t) (cs : list call) :
  0 <= state_index w <= 2 -> 0 <= state_index (run load w cs) <= 2.
Proof.
  intros Hw; induction cs as [|c cs IH] using rev_ind; [exact Hw|].
  rewrite run_snoc; destruct c; simpl; [|lia].
  rewrite take_damage_state_index.
  destruct (_ <=? 6); simpl; [|exact IH].
  destruct (state_index (run load w cs) <? 2) eqn:E; [|exact IH].
  apply Z.ltb_lt in E; lia.
Qed.

End WallFacts.

(** C3, as amended.  Each take_damage() call lowers health by exactly 1,
    with no floor: after [n] calls health is the starting value minus [n],
    which is at least 0 as long as [n] does not exceed the starting value.
    A wall that is in a group leaves it on the call whose result is a
    health of 0 or less: it is gone after [n] calls exactly when [n] is at
    least 1 and at least the starting health. *)
Theorem wall_take_damage_counts_down (load : loader) (w : Wall.t) (n : nat) :
  Wall.health (Wall.take_damage load w) = Wall.health w - 1 /\
  Wall.health (Wall.damaged load n w) = Wall.health w - Z.of_nat n /\
  (Z.of_nat n <= Wall.health w -> 0 <= Wall.health (Wall.damaged load n w)) /\
  (Wall.alive w = true ->
   (Wall.alive (Wall.take_damage load w) = false <-> Wall.health w - 1 <= 0) /\
   (Wall.alive (Wall.damaged load n w) = false <->
    (1 <= n)%nat /\ Wall.health w <= Z.of_nat n)).
Proof.
  split; [apply take_damage_health|].
  split; [apply damaged_health|].
  split; [rewrite damaged_health; lia|].
  intros Ha; split; [|now apply damaged_alive].
  rewrite take_damage_alive, Ha; simpl.
  now rewrite negb_false_iff, Z.leb_le.
Qed.

Lemma wall_take_damage_counts_down_witness :
  let w := Wall.add 1%nat (Wall.__init__ small_textures 100 400) in
  0 <= Wall.health (Wall.damaged small_textures 25 w) /\
  (Wall.alive (Wall.damaged small_textures 25 w) = false <->
   (1 <= 25)%nat /\ Wall.health w <= Z.of_nat 25).
Proof.
  pose proof (wall_take_damage_counts_down small_textures
                (Wall.add 1%nat (Wall.__init__ small_textures 100 400)) 25) as H.
  destruct H as (_ & _ & Hge & Hal).
  split.
  - apply Hge. vm_compute. discriminate.
  - apply Hal. reflexivity.
Defined.

(** C3 as written fails: the 26th take_damage() call on a new wall leaves
    its health at -1. *)
Lemma wall_health_goes_negative :
  ~ (0 <= Wall.health
            (Wall.damaged small_textures 26 (Wall.__init__ small_textures 100 400))).
Proof. vm_compute. intros H; apply H; reflexivity. Qed.

(** C4.  reset() puts state_index back to 0 and reloads the first
    visual, and it sets health to 10, whereas the constructor sets health
    to 25. *)
Theorem wall_reset_health_is_10 (load : loader) (x y : Z) (cs : list Wall.call) :
  let w0 := Wall.__init__ load x y in
  let w := Wall.reset load (Wall.run load w0 cs) in
  Wall.state_index w = Wall.state_index w0 /\
  Wall.image w = Wall.image w0 /\
  Wall.health w = 10 /\
  Wall.health w0 = 25.
Proof.
  simpl. repeat split.
  unfold Wall.state_image. now rewrite run_states.
Qed.

(** C9.  A take_damage() call raises state_index by 1 when the health it
    leaves is at most 6 and state_index is below 2, and leaves it alone
    otherwise; so state_index never falls and rises by at most 1 per call.
    reset() sets it to 0.  From the constructor on, through any sequence of
    take_damage() and reset() calls, state_index stays within 0..2. *)
Theorem wall_state_index_advances (load : loader) (w : Wall.t)
    (x y : Z) (cs : list Wall.call) :
  (Wall.state_index w <= Wall.state_index (Wall.take_damage load w)
     <= Wall.state_index w + 1) /\
  (Wall.state_index (Wall.take_damage load w) = Wall.state_index w + 1 <->
   Wall.health w - 1 <= 6 /\ Wall.state_index w < 2) /\
  Wall.state_index (Wall.reset load w) = 0 /\
  0 <= Wall.state_index (Wall.run load (Wall.__init__ load x y) cs) <= 2.
Proof.
  rewrite take_damage_state_index.
  destruct (Wall.health w - 1 <=? 6) eqn:Eh;
    destruct (Wall.state_index w <? 2) eqn:Es; simpl;
    rewrite ?Z.leb_le, ?Z.leb_gt in Eh; rewrite ?Z.ltb_lt, ?Z.ltb_ge in Es;
    (split; [lia|]); (split; [lia|]); (split; [reflexivity|]);
    apply run_state_index; simpl; lia.
Qed.

(** ** Player: lives and horizontal bounds *)

Section PlayerFacts.

Import Player.

Lemma update_lives (p : Player.t) (keys : Z -> bool) :
  lives (update p keys) = lives p.
Proof. reflexivity. Qed.

Lemma heal_lives (p : Player.t) :
  lives (heal p) = if lives p =? 3 then 1 else 0.
Proof. unfold heal; simpl; destruct (lives p =? 3); reflexivity. Qed.

Lemma step_lives (p : Player.t) (c : call) :
  nonneg_damage c -> 0 <= lives p <= 3 ->
  0 <= lives (step p c) <= 3 /\ (is_heal c = false -> lives (step p c) <= lives p).
Proof.
  destruct c as [keys|amount|]; simpl; intros Hc Hp.
  - lia.
  - lia.
  - destruct (lives p =? 3); simpl; split; (lia || discriminate).
Qed.

Lemma run_snoc_player (p : Player.t) (cs : list call) (c : call) :
  run p (cs ++ [c]) = step (run p cs) c.
Proof. unfold run; now rewrite fold_left_app. Qed.

Lemma run_lives (p : Player.t) (cs : list call) :
  Forall nonneg_damage cs -> 0 <= lives p <= 3 -> 0 <= lives (run p cs) <= 3.
Proof.
  intros Hcs Hp; induction cs as [|c cs IH] using rev_ind; [exact Hp|].
  apply Forall_app in Hcs; destruct Hcs as [Hcs Hc].
  rewrite run_snoc_player.
  apply step_lives; [now inversion Hc|now apply IH].
Qed.

Lemma update_rect (p : Player.t) (keys : Z -> bool) :
  rect (update p keys) =
  let r := moved p keys in
  if left r <? 0 then set_left 0 r
  else if right r >? SCREEN_WIDTH then set_right SCREEN_WIDTH r
  else r.
Proof. reflexivity. Qed.

Lemma moved_width (p : Player.t) (keys : Z -> bool) :
  rect_w (moved p keys) = rect_w (rect p).
Proof.
  unfold moved; destruct (keys (left_key p)); destruct (keys (right_key p));
    reflexivity.
Qed.

End PlayerFacts.

(** C5, as amended.  From construction on, through any sequence of
    update(keys), take_damage(amount) and heal() calls in which every
    amount is at least 0, lives stays within 0..3, and no call other than
    heal() leaves lives higher than it found it. *)
Theorem player_lives_bounded (load : loader) (screen_width screen_height : Z)
    (index left_key right_key : Z) (cs : list Player.call) :
  Forall Player.nonneg_damage cs ->
  let p0 := Player.__init__ load screen_width screen_height index left_key right_key in
  0 <= Player.lives (Player.run p0 cs) <= 3 /\
  forall pre c post, cs = pre ++ c :: post -> Player.is_heal c = false ->
    Player.lives (Player.run p0 (pre ++ [c])) <= Player.lives (Player.run p0 pre).
Proof.
  intros Hcs p0.
  assert (H0 : 0 <= Player.lives p0 <= 3) by (simpl; lia).
  split; [now apply run_lives|].
  intros pre c post -> Hc.
  apply Forall_app in Hcs; destruct Hcs as [Hpre Hrest].
  rewrite run_snoc_player.
  apply step_lives; [now inversion Hrest|now apply run_lives|exact Hc].
Qed.

Lemma player_lives_bounded_witness :
  let cs := [Player.Update no_keys; Player.TakeDamage 1; Player.Heal;
             Player.TakeDamage 5] in
  let p0 := Player.__init__ small_textures 800 600 1 Player.K_a Player.K_d in
  0 <= Player.lives (Player.run p0 cs) <= 3 /\
  forall pre c post, cs = pre ++ c :: post -> Player.is_heal c = false ->
    Player.lives (Player.run p0 (pre ++ [c])) <= Player.lives (Player.run p0 pre).
Proof.
  apply (player_lives_bounded small_textures 800 600 1 Player.K_a Player.K_d).
  repeat constructor; simpl; lia.
Defined.

(** C5 as written fails: take_damage(-1) on a new player leaves 4 lives. *)
Lemma player_negative_damage_adds_a_life :
  let p0 := Player.__init__ small_textures 800 600 1 Player.K_a Player.K_d in
  ~ (0 <= Player.lives (Player.run p0 [Player.TakeDamage (-1)]) <= 3).
Proof. vm_compute. intros [_ H]; apply H; reflexivity. Qed.

(** C6, as amended.  For a player whose rectangle is no wider than
    SCREEN_WIDTH, wherever it stands and whichever keys are pressed, one
    update(keys) call leaves the rectangle with left at least 0 and right
    at most SCREEN_WIDTH. *)
Theorem player_stays_on_screen (p : Player.t) (keys : Z -> bool) :
  rect_w (Player.rect p) <= SCREEN_WIDTH ->
  0 <= left (Player.rect (Player.update p keys)) /\
  right (Player.rect (Player.update p keys)) <= SCREEN_WIDTH.
Proof.
  intros Hw; rewrite update_rect; cbv zeta.
  pose proof (moved_width p keys) as Hm.
  destruct (left (Player.moved p keys) <? 0) eqn:El.
  - rewrite left_set_left, right_set_left; lia.
  - apply Z.ltb_ge in El.
    destruct (right (Player.moved p keys) >? SCREEN_WIDTH) eqn:Er.
    + rewrite left_set_right, right_set_right; lia.
    + rewrite Z.gtb_ltb in Er; apply Z.ltb_ge in Er; lia.
Qed.

Lemma player_stays_on_screen_witness :
  let p := Player.__init__ small_textures 800 600 1 Player.K_a Player.K_d in
  let keys := fun k => k =? Player.K_d in
  0 <= left (Player.rect (Player.update p keys)) /\
  right (Player.rect (Player.update p keys)) <= SCREEN_WIDTH.
Proof.
  apply (player_stays_on_screen
           (Player.__init__ small_textures 800 600 1 Player.K_a Player.K_d)).
  vm_compute; discriminate.
Defined.

(** C6 as written fails for a rectangle wider than the screen: pushed to
    left = 0, its right edge is at 900. *)
Lemma player_wider_than_screen_sticks_out :
  let p := Player.__init__ wide_textures 800 600 1 Player.K_a Player.K_d in
  ~ (0 <= left (Player.rect (Player.update p no_keys)) /\
     right (Player.rect (Player.update p no_keys)) <= SCREEN_WIDTH).
Proof. vm_compute. intros [_ H]; apply H; reflexivity. Qed.

(** C10.  The constructor's screen_width and screen_height only place the
    centre of the rectangle: two players built with different screen sizes
    differ in nothing but that placement.  update(keys), on any player,
    brings the moved rectangle back against 0 and against the module
    constant SCREEN_WIDTH = 800: a rectangle left of 0 gets left = 0, one
    that is not but reaches past 800 gets right = 800, and any other is
    kept as moved. *)
Theorem player_clamp_uses_module_constant (load : loader)
    (screen_width screen_height index left_key right_key : Z)
    (keys : Z -> bool) :
  let p := Player.__init__ load screen_width screen_height index left_key right_key in
  center (Player.rect p) = (screen_width / 2, screen_height - 50) /\
  (forall screen_width' screen_height',
     Player.__init__ load screen_width' screen_height' index left_key right_key =
     Player.with_rect p
       (set_center (screen_width' / 2, screen_height' - 50) (Player.rect p))) /\
  (forall q : Player.t,
     let r := Player.moved q keys in
     Player.update q keys = Player.with_rect q (Player.rect (Player.update q keys)) /\
     (left r < 0 -> left (Player.rect (Player.update q keys)) = 0) /\
     (0 <= left r -> 800 < right r ->
      right (Player.rect (Player.update q keys)) = 800) /\
     (0 <= left r -> right r <= 800 -> Player.rect (Player.update q keys) = r)).
Proof.
  intros p.
  split; [apply center_set_center|].
  split; [reflexivity|].
  intros q r. split; [reflexivity|].
  rewrite update_rect; cbv zeta; fold r.
  split; [|split].
  - intros H; apply Z.ltb_lt in H; rewrite H. apply left_set_left.
  - intros H1 H2. apply Z.ltb_ge in H1; rewrite H1.
    replace (right r >? SCREEN_WIDTH) with true
      by (symmetry; apply Z.gtb_lt; unfold SCREEN_WIDTH; lia).
    apply right_set_right.
  - intros H1 H2. apply Z.ltb_ge in H1; rewrite H1.
    replace (right r >? SCREEN_WIDTH) with false; [reflexivity|].
    symmetry. rewrite Z.gtb_ltb. apply Z.ltb_ge. unfold SCREEN_WIDTH; lia.
Qed.

Lemma player_clamp_uses_module_constant_witness :
  let q := Player.__init__ small_textures 2000 600 1 Player.K_a Player.K_d in
  right (Player.rect (Player.update q no_keys)) = 800.
Proof.
  pose proof (player_clamp_uses_module_constant small_textures
                2000 600 1 Player.K_a Player.K_d no_keys) as H.
  destruct H as (_ & _ & H).
  destruct (H (Player.__init__ small_textures 2000 600 1 Player.K_a Player.K_d))
    as (_ & _ & Hr & _).
  apply Hr; vm_compute; [discriminate|reflexivity].
Defined.

(** ** Enemy: patrol and shooting *)

Section EnemyFacts.

Import Enemy.

(** The movement half of update(), by cases on the frame counter and on
    where the horizontal move ends. *)
Lemma update_waits (e : Enemy.t) :
  current_frame e + 1 < move_delay e ->
  rect (update e) = rect e /\ direction (update e) = direction e /\
  current_frame (update e) = current_frame e + 1.
Proof.
  intros H; unfold update.
  replace (current_frame e + 1 >=? move_delay e) with false
    by (symmetry; rewrite Z.geb_leb; apply Z.leb_gt; lia).
  destruct (shooting_timer e >? 0); simpl; auto.
Qed.

Lemma update_moves (e : Enemy.t) :
  move_delay e <= current_frame e + 1 ->
  let r := set_x (rect_x (rect e) + speed e * direction e) (rect e) in
  current_frame (update e) = 0 /\
  rect (update e) =
    (if (right r >=? SCREEN_WIDTH) || (left r <=? 0)
     then set_y (rect_y r + 20) r else r) /\
  direction (update e) =
    (if (right r >=? SCREEN_WIDTH) || (left r <=? 0)
     then direction e * -1 else direction e).
Proof.
  intros H r; unfold update; fold r.
  replace (current_frame e + 1 >=? move_delay e) with true
    by (symmetry; rewrite Z.geb_leb; apply Z.leb_le; lia).
  destruct (_ || _); destruct (shooting_timer e >? 0); simpl; auto.
Qed.

Lemma update_constants (e : Enemy.t) :
  speed (update e) = speed e /\ move_delay (update e) = move_delay e /\
  shooting_cooldown (update e) = shooting_cooldown e /\
  rect_w (rect (update e)) = rect_w (rect e).
Proof.
  unfold update.
  destruct (_ >=? _); [destruct (_ || _)|];
    destruct (shooting_timer e >? 0); simpl; auto.
Qed.

(** The shooting half of update(). *)
Lemma update_cooldown (e : Enemy.t) :
  (0 < shooting_timer e ->
   shooting_timer (update e) = shooting_timer e - 1 /\
   can_shoot (update e) = can_shoot e) /\
  (shooting_timer e <= 0 ->
   shooting_timer (update e) = shooting_timer e /\ can_shoot (update e) = true).
Proof.
  unfold update.
  destruct (shooting_timer e >? 0) eqn:E;
    [apply Z.gtb_lt in E|rewrite Z.gtb_ltb in E; apply Z.ltb_ge in E];
    (destruct (_ >=? _); [destruct (_ || _)|]); simpl; split; intros; auto; lia.
Qed.

Lemma updates_S_enemy (n : nat) (e : Enemy.t) :
  updates (S n) e = update (updates n e).
Proof. reflexivity. Qed.

(** Ticks on which the frame counter has not reached move_delay leave
    the enemy where it is. *)
Lemma updates_wait (n : nat) (e : Enemy.t) :
  current_frame e + Z.of_nat n < move_delay e ->
  rect (updates n e) = rect e /\ direction (updates n e) = direction e /\
  current_frame (updates n e) = current_frame e + Z.of_nat n /\
  speed (updates n e) = speed e /\ move_delay (updates n e) = move_delay e.
Proof.
  induction n as [|n IH]; intros H.
  - simpl; repeat split; lia.
  - rewrite updates_S_enemy.
    destruct IH as (Hr & Hd & Hf & Hs & Hm); [lia|].
    destruct (update_constants (updates n e)) as (Hs' & Hm' & _).
    destruct (update_waits (updates n e)) as (Hr' & Hd' & Hf'); [lia|].
    rewrite Hr', Hd', Hf', Hs', Hm'. repeat split; try assumption; lia.
Qed.

Lemma ticks_cons_update (cs : list call) : ticks (Update :: cs) = 1 + ticks cs.
Proof. unfold ticks; simpl filter; simpl List.length; lia. Qed.

Lemma ticks_cons_shoot (cs : list call) : ticks (Shoot :: cs) = ticks cs.
Proof. reflexivity. Qed.

Lemma ticks_nonneg (cs : list call) : 0 <= ticks cs.
Proof. unfold ticks; lia. Qed.

Variable load : loader.

Lemma step_update (e : Enemy.t) (bs : list Bullet.t) :
  step load (e, bs) Update = (update e, bs).
Proof. reflexivity. Qed.

Lemma step_shoot_idle (e : Enemy.t) (bs : list Bullet.t) :
  can_shoot e = false -> step load (e, bs) Shoot = (e, bs).
Proof. intros H; unfold step, shoot; simpl; now rewrite H. Qed.

Lemma step_shoot_fires (e : Enemy.t) (bs : list Bullet.t) :
  can_shoot e = true ->
  exists e' b, step load (e, bs) Shoot = (e', b :: bs) /\
    can_shoot e' = false /\ shooting_timer e' = shooting_cooldown e.
Proof.
  intros H; unfold step, shoot; simpl; rewrite H; simpl.
  do 2 eexists; repeat split.
Qed.

(** After a shot, nothing is fired during the next shooting_timer
    ticks. *)
Lemma silent_while_cooling (cs : list call) :
  forall (e : Enemy.t) (bs : list Bullet.t),
    can_shoot e = false -> ticks cs <= shooting_timer e ->
    snd (fold_left (step load) cs (e, bs)) = bs.
Proof.
  induction cs as [|c cs IH]; intros e bs Hc Ht; [reflexivity|].
  cbn [fold_left]. destruct c.
  - rewrite step_update.
    rewrite ticks_cons_update in Ht. pose proof (ticks_nonneg cs).
    destruct (update_cooldown e) as [Hpos _].
    destruct Hpos as [Ht' Hc']; [lia|].
    apply IH; [congruence|lia].
  - rewrite (step_shoot_idle e bs Hc).
    rewrite ticks_cons_shoot in Ht. now apply IH.
Qed.

Lemma one_bullet_per_window (cs : list call) :
  forall (e : Enemy.t) (bs : list Bullet.t),
    ticks cs <= shooting_cooldown e ->
    (List.length (snd (fold_left (step load) cs (e, bs))) <= S (List.length bs))%nat.
Proof.
  induction cs as [|c cs IH]; intros e bs Ht; [simpl; lia|].
  cbn [fold_left]. destruct c.
  - rewrite step_update. rewrite ticks_cons_update in Ht.
    pose proof (ticks_nonneg cs).
    destruct (update_constants e) as (_ & _ & Hcd & _).
    apply IH; lia.
  - rewrite ticks_cons_shoot in Ht.
    destruct (can_shoot e) eqn:Hc.
    + destruct (step_shoot_fires e bs Hc) as (e' & b & -> & Hc' & Ht').
      rewrite silent_while_cooling; [simpl; lia|exact Hc'|lia].
    + rewrite (step_shoot_idle e bs Hc). now apply IH.
Qed.

End EnemyFacts.

Lemma enemy_ten_ticks (e : Enemy.t) :
  Enemy.direction e = 1 -> Enemy.speed e = 10 ->
  Enemy.move_delay e = 10 -> Enemy.current_frame e = 0 ->
  rect_x (Enemy.rect (Enemy.updates 10 e)) = rect_x (Enemy.rect e) + 10 /\
  rect_w (Enemy.rect (Enemy.updates 10 e)) = rect_w (Enemy.rect e).
Proof.
  intros Hd Hs Hm Hf.
  destruct (updates_wait 9 e) as (Hr9 & Hd9 & Hf9 & Hs9 & Hm9);
    [rewrite Hf, Hm; reflexivity|].
  rewrite (updates_S_enemy 9 e).
  set (e9 := Enemy.updates 9 e) in *.
  destruct (update_moves e9) as (_ & Hr & _);
    [rewrite Hm9, Hf9, Hm, Hf; simpl; lia|].
  rewrite Hr, Hr9, Hs9, Hd9, Hs, Hd.
  match goal with |- context [if ?c then _ else _] => destruct c end;
    unfold set_y, set_x; cbn [rect_x rect_w]; split; lia.
Qed.

(** C7.  With can_shoot set, shoot() hands back a new enemy-owned bullet
    whose centre is the enemy's bottom-centre, clears can_shoot and sets
    the timer to shooting_cooldown, leaving the enemy where it is; with
    can_shoot clear it hands back nothing and changes nothing.  In any
    sequence of update() and shoot() calls with no more update() calls
    than shooting_cooldown, at most one bullet is produced. *)
Theorem enemy_shoot_once_per_cooldown (load : loader) (e : Enemy.t)
    (cs : list Enemy.call) :
  (Enemy.can_shoot e = true ->
   exists b,
     snd (Enemy.shoot load e) = Some b /\
     b = Bullet.__init__ load (centerx (Enemy.rect e)) (bottom (Enemy.rect e)) true /\
     Bullet.is_enemy b = true /\
     center (Bullet.rect b) = (centerx (Enemy.rect e), bottom (Enemy.rect e)) /\
     Enemy.can_shoot (fst (Enemy.shoot load e)) = false /\
     Enemy.shooting_timer (fst (Enemy.shoot load e)) = Enemy.shooting_cooldown e /\
     Enemy.rect (fst (Enemy.shoot load e)) = Enemy.rect e) /\
  (Enemy.can_shoot e = false -> Enemy.shoot load e = (e, None)) /\
  (Enemy.ticks cs <= Enemy.shooting_cooldown e ->
   (List.length (snd (Enemy.run load e cs)) <= 1)%nat).
Proof.
  split; [|split].
  - intros H; unfold Enemy.shoot; rewrite H; simpl.
    eexists; split; [reflexivity|].
    split; [reflexivity|]. split; [reflexivity|].
    split; [apply center_set_center|]. repeat split.
  - intros H; unfold Enemy.shoot; now rewrite H.
  - intros H. apply (one_bullet_per_window load cs e [] H).
Qed.

Lemma enemy_shoot_once_per_cooldown_witness :
  let e := Enemy.__init__ (fun _ => None) 400 100 "Enemy1.png" in
  let cs := [Enemy.Shoot; Enemy.Update; Enemy.Shoot; Enemy.Shoot] in
  (exists b, snd (Enemy.shoot small_textures e) = Some b /\
             Bullet.is_enemy b = true) /\
  (List.length (snd (Enemy.run small_textures e cs)) <= 1)%nat.
Proof.
  pose proof (enemy_shoot_once_per_cooldown small_textures
                (Enemy.__init__ (fun _ => None) 400 100 "Enemy1.png")
                [Enemy.Shoot; Enemy.Update; Enemy.Shoot; Enemy.Shoot]) as H.
  destruct H as (Hfire & _ & Hwin).
  split.
  - destruct (Hfire eq_refl) as (b & Hb & _ & He & _).
    exists b; split; assumption.
  - apply Hwin. vm_compute. discriminate.
Defined.

(** C8.  An update() call multiplies direction by -1 when it moves the
    enemy (the frame counter has reached move_delay) and the moved
    rectangle has right >= SCREEN_WIDTH or left <= 0, and on those calls
    it adds 20 to the vertical position; on every other call direction and
    vertical position are kept.  An enemy at x = 0 with direction 1,
    speed 10, move_delay 10 and a fresh frame counter is at x = 10 after 10
    calls; one built by the constructor around x = 0 has its centre at
    x = 10 after 10 calls. *)
Theorem enemy_direction_flips_at_edges (e : Enemy.t)
    (try_load : try_loader) (y : Z) (image_path : string) :
  let x' := rect_x (Enemy.rect e) + Enemy.speed e * Enemy.direction e in
  let moves := Enemy.move_delay e <= Enemy.current_frame e + 1 in
  let at_edge := SCREEN_WIDTH <= x' + rect_w (Enemy.rect e) \/ x' <= 0 in
  (moves /\ at_edge ->
   Enemy.direction (Enemy.update e) = Enemy.direction e * -1 /\
   rect_y (Enemy.rect (Enemy.update e)) = rect_y (Enemy.rect e) + 20) /\
  (~ (moves /\ at_edge) ->
   Enemy.direction (Enemy.update e) = Enemy.direction e /\
   rect_y (Enemy.rect (Enemy.update e)) = rect_y (Enemy.rect e)) /\
  (rect_x (Enemy.rect e) = 0 -> Enemy.direction e = 1 -> Enemy.speed e = 10 ->
   Enemy.move_delay e = 10 -> Enemy.current_frame e = 0 ->
   rect_x (Enemy.rect (Enemy.updates 10 e)) = 10) /\
  centerx (Enemy.rect (Enemy.updates 10 (Enemy.__init__ try_load 0 y image_path))) = 10.
Proof.
  intros x' moves at_edge.
  assert (Hedge : forall r, r = set_x x' (Enemy.rect e) ->
            ((right r >=? SCREEN_WIDTH) || (left r <=? 0) = true <-> at_edge)).
  { intros r ->. unfold at_edge, right, left, set_x; simpl.
    rewrite orb_true_iff, Z.geb_leb, !Z.leb_le. reflexivity. }
  split; [|split; [|split]].
  - intros [Hm He].
    destruct (update_moves e Hm) as (_ & Hr & Hd).
    apply (Hedge _ eq_refl) in He. fold x' in Hr, Hd.
    rewrite Hr, Hd, He. split; reflexivity.
  - intros Hn.
    destruct (Z.le_gt_cases (Enemy.move_delay e) (Enemy.current_frame e + 1))
      as [Hm|Hm].
    + destruct (update_moves e Hm) as (_ & Hr & Hd). fold x' in Hr, Hd.
      destruct ((right (set_x x' (Enemy.rect e)) >=? SCREEN_WIDTH)
                || (left (set_x x' (Enemy.rect e)) <=? 0)) eqn:E.
      * exfalso; apply Hn; split; [exact Hm|]. now apply (Hedge _ eq_refl).
      * rewrite Hr, Hd; split; reflexivity.
    + destruct (update_waits e Hm) as (Hr & Hd & _).
      rewrite Hr, Hd; split; reflexivity.
  - intros Hx Hd Hs Hm Hf.
    destruct (enemy_ten_ticks e Hd Hs Hm Hf) as [H _]. rewrite H, Hx. reflexivity.
  - destruct (enemy_ten_ticks (Enemy.__init__ try_load 0 y image_path))
      as [Hx Hw]; try reflexivity.
    unfold centerx. rewrite Hx, Hw. simpl. lia.
Qed.

Lemma enemy_direction_flips_at_edges_witness :
  let e := Enemy.updates 9 (Enemy.__init__ (fun _ => None) 0 100 "Enemy1.png") in
  Enemy.direction (Enemy.update e) = Enemy.direction e * -1 /\
  rect_y (Enemy.rect (Enemy.update e)) = rect_y (Enemy.rect e) + 20.
Proof.
  pose proof (enemy_direction_flips_at_edges
                (Enemy.updates 9 (Enemy.__init__ (fun _ => None) 0 100 "Enemy1.png"))
                (fun _ => None) 100 "Enemy1.png") as H.
  destruct H as (Hflip & _).
  apply Hflip. vm_compute. split; [discriminate|right; discriminate].
Defined.

(** ** Recolouring *)

Lemma color_eqb_eq (c d : color) : color_eqb c d = true <-> c = d.
Proof.
  destruct c as [[r1 g1] b1], d as [[r2 g2] b2]; unfold color_eqb.
  rewrite !andb_true_iff, !Z.eqb_eq. split.
  - intros [[-> ->] ->]; reflexivity.
  - intros H; inversion H; auto.
Qed.

Lemma color_eqb_neq (c d : color) : color_eqb c d = false <-> c <> d.
Proof.
  rewrite <- color_eqb_eq. destruct (color_eqb c d); split; congruence.
Qed.

(** X1.  change_color keeps the size and the colour key of the image,
    turns every pixel of the old colour into the new colour and leaves
    every other pixel as it is; when the two colours differ, no pixel of
    the result has the old colour. *)
Theorem change_color_replaces (image : Surface) (old_color new_color : color)
    (x y : Z) :
  let image' := change_color image old_color new_color in
  surf_w image' = surf_w image /\ surf_h image' = surf_h image /\
  colorkey image' = colorkey image /\
  (get_at image x y = old_color -> get_at image' x y = new_color) /\
  (get_at image x y <> old_color -> get_at image' x y = get_at image x y) /\
  (old_color <> new_color -> get_at image' x y <> old_color).
Proof.
  simpl. repeat split.
  - intros H. apply color_eqb_eq in H. now rewrite H.
  - intros H. apply color_eqb_neq in H. now rewrite H.
  - intros Hne. destruct (color_eqb (get_at image x y) old_color) eqn:E.
    + congruence.
    + now apply color_eqb_neq.
Qed.

Lemma change_color_replaces_witness :
  let image := small_textures "Textures/Player.png"%string in
  get_at (change_color image WHITE (255, 0, 0)) 3 4 = (255, 0, 0) /\
  get_at (change_color image WHITE (255, 0, 0)) 3 4 <> WHITE.
Proof.
  pose proof (change_color_replaces (small_textures "Textures/Player.png"%string)
                WHITE (255, 0, 0) 3 4) as H.
  destruct H as (_ & _ & _ & Hold & _ & Hnone).
  split; [apply Hold; reflexivity|apply Hnone; discriminate].
Defined.

(** X2.  On a player as the constructor builds it, set_color changes no
    pixel: the constructor has already turned every white pixel red or
    blue, so there is no white pixel left for set_color to replace. *)
Theorem player_set_color_after_init (load : loader)
    (screen_width screen_height index left_key right_key : Z)
    (new_color : color) (x y : Z) :
  let p := Player.__init__ load screen_width screen_height index left_key right_key in
  get_at (Player.image (Player.set_color p new_color)) x y =
  get_at (Player.image p) x y /\
  get_at (Player.image p) x y <> WHITE.
Proof.
  simpl.
  destruct (index =? 1); simpl;
    destruct (color_eqb (get_at (load (path_join "Textures" "Player.png")) x y)
                WHITE) eqn:E; simpl; try rewrite E; split;
    try reflexivity; try discriminate; now apply color_eqb_neq.
Qed.

(** X17.  Enemy.set_color with a colour other than magenta paints every
    non-magenta pixel of the image in that colour and leaves the magenta
    ones, so the transparent area is the same before and after; the
    enemy's rectangle, health and timers are untouched. *)
Theorem enemy_set_color_keeps_mask (e : Enemy.t) (c : color) (x y : Z) :
  c <> MAGENTA -> on_surface (Enemy.image e) x y ->
  let e' := Enemy.set_color e c in
  (get_at (Enemy.image e) x y <> MAGENTA -> get_at (Enemy.image e') x y = c) /\
  (get_at (Enemy.image e') x y = MAGENTA <->
   get_at (Enemy.image e) x y = MAGENTA) /\
  Enemy.rect e' = Enemy.rect e /\ Enemy.health e' = Enemy.health e /\
  Enemy.can_shoot e' = Enemy.can_shoot e /\
  Enemy.direction e' = Enemy.direction e.
Proof.
  intros Hc [[Hx1 Hx2] [Hy1 Hy2]]; simpl.
  apply Z.leb_le in Hx1, Hy1. apply Z.ltb_lt in Hx2, Hy2.
  rewrite Hx1, Hx2, Hy1, Hy2; simpl.
  destruct (color_eqb (get_at (Enemy.image e) x y) MAGENTA) eqn:E; simpl.
  - apply color_eqb_eq in E. repeat split; auto; congruence.
  - apply color_eqb_neq in E. repeat split; auto; intros; congruence.
Qed.

Lemma enemy_set_color_keeps_mask_witness :
  let e := Enemy.__init__ (fun _ => None) 400 100 "Enemy1.png" in
  get_at (Enemy.image (Enemy.set_color e (0, 255, 0))) 10 10 = (0, 255, 0).
Proof.
  pose proof (enemy_set_color_keeps_mask
                (Enemy.__init__ (fun _ => None) 400 100 "Enemy1.png")
                (0, 255, 0) 10 10) as H.
  destruct H as (Hpaint & _).
  - discriminate.
  - vm_compute. repeat split; discriminate.
  - apply Hpaint. vm_compute. discriminate.
Defined.

(** X16.  The Enemy constructor goes through whether the texture file is
    found or not (FileNotFoundError): either way the rectangle has the
    size of the image, is centred on (x, y), and magenta is the colour
    key; when the file is missing the image is the 50 by 40 block, red all
    over, and otherwise it is the loaded texture. *)
Theorem enemy_init_fallback (try_load : try_loader) (x y : Z)
    (image_path : string) :
  let e := Enemy.__init__ try_load x y image_path in
  center (Enemy.rect e) = (x, y) /\
  colorkey (Enemy.image e) = Some MAGENTA /\
  rect_w (Enemy.rect e) = surf_w (Enemy.image e) /\
  rect_h (Enemy.rect e) = surf_h (Enemy.image e) /\
  (try_load (path_join "Textures" image_path) = None ->
   surf_w (Enemy.image e) = 50 /\ surf_h (Enemy.image e) = 40 /\
   forall px py, get_at (Enemy.image e) px py = (255, 0, 0)) /\
  (forall s, try_load (path_join "Textures" image_path) = Some s ->
   surf_w (Enemy.image e) = surf_w s /\ surf_h (Enemy.image e) = surf_h s /\
   forall px py, get_at (Enemy.image e) px py = get_at s px py).
Proof.
  intros e.
  split; [apply center_set_center|].
  split; [reflexivity|]. split; [reflexivity|]. split; [reflexivity|].
  unfold e, Enemy.__init__.
  destruct (try_load (path_join "Textures" image_path)) as [s|]; simpl; split.
  - discriminate.
  - intros s' H; inversion H; subst; repeat split.
  - intros _; repeat split.
  - discriminate.
Qed.

Lemma enemy_init_fallback_witness :
  let e := Enemy.__init__ (fun _ => None) 400 100 "Enemy1.png" in
  surf_w (Enemy.image e) = 50 /\ surf_h (Enemy.image e) = 40 /\
  forall px py, get_at (Enemy.image e) px py = (255, 0, 0).
Proof.
  pose proof (enemy_init_fallback (fun _ => None) 400 100 "Enemy1.png") as H.
  destruct H as (_ & _ & _ & _ & Hmiss & _).
  apply Hmiss. reflexivity.
Defined.

(** ** Player: movement and lives *)

Lemma set_x_same (r : Rect) (v : Z) : v = rect_x r -> set_x v r = r.
Proof. intros ->; destruct r; reflexivity. Qed.

(** X3.  update(keys) changes nothing of a player but the horizontal
    position of its rectangle.  With the left and the right key both held
    the two moves cancel, and a player that stands on the screen stays
    exactly where it is. *)
Theorem player_both_keys_cancel (p : Player.t) (keys : Z -> bool) :
  (rect_y (Player.rect (Player.update p keys)) = rect_y (Player.rect p) /\
   rect_w (Player.rect (Player.update p keys)) = rect_w (Player.rect p) /\
   rect_h (Player.rect (Player.update p keys)) = rect_h (Player.rect p) /\
   Player.with_rect (Player.update p keys) (Player.rect p) = p) /\
  (keys (Player.left_key p) = true -> keys (Player.right_key p) = true ->
   0 <= left (Player.rect p) -> right (Player.rect p) <= SCREEN_WIDTH ->
   Player.update p keys = p).
Proof.
  split.
  - rewrite update_rect; cbv zeta.
    assert (Hm : rect_y (Player.moved p keys) = rect_y (Player.rect p) /\
                 rect_w (Player.moved p keys) = rect_w (Player.rect p) /\
                 rect_h (Player.moved p keys) = rect_h (Player.rect p)).
    { unfold Player.moved.
      destruct (keys (Player.left_key p)); destruct (keys (Player.right_key p));
        simpl; auto. }
    destruct Hm as (Hy & Hw & Hh).
    repeat split;
      try (destruct (left _ <? 0); [|destruct (right _ >? SCREEN_WIDTH)];
           simpl; assumption).
    destruct p; reflexivity.
  - intros Hl Hr H0 H1.
    assert (Hm : Player.moved p keys = Player.rect p).
    { unfold Player.moved; rewrite Hl, Hr.
      destruct (Player.rect p) as [x y w h]; unfold set_x; simpl.
      f_equal; lia. }
    unfold Player.update. fold (Player.moved p keys). rewrite Hm.
    apply Z.ltb_ge in H0; rewrite H0.
    replace (right (Player.rect p) >? SCREEN_WIDTH) with false
      by (symmetry; rewrite Z.gtb_ltb; now apply Z.ltb_ge).
    destruct p; reflexivity.
Qed.

Lemma player_both_keys_cancel_witness :
  let p := Player.__init__ small_textures 800 600 1 Player.K_a Player.K_d in
  Player.update p (fun _ => true) = p.
Proof.
  apply (player_both_keys_cancel
           (Player.__init__ small_textures 800 600 1 Player.K_a Player.K_d)
           (fun _ => true)); try reflexivity; vm_compute; discriminate.
Defined.

(** X4.  Damage adds up: take_damage(a) followed by take_damage(b), with
    b at least 0, leaves the player as one take_damage(a + b) does; and a
    player with no lives left keeps 0 lives under any damage that is not
    negative. *)
Theorem player_damage_adds_up (p : Player.t) (a b : Z) :
  0 <= b ->
  Player.take_damage (Player.take_damage p a) b = Player.take_damage p (a + b) /\
  (Player.lives p = 0 -> Player.lives (Player.take_damage p b) = 0).
Proof.
  intros Hb; split.
  - unfold Player.take_damage, Player.with_lives; simpl. f_equal. lia.
  - intros H0; simpl; lia.
Qed.

Lemma player_damage_adds_up_witness :
  let p := Player.__init__ small_textures 800 600 1 Player.K_a Player.K_d in
  Player.take_damage (Player.take_damage p 1) 1 = Player.take_damage p (1 + 1).
Proof.
  apply (player_damage_adds_up
           (Player.__init__ small_textures 800 600 1 Player.K_a Player.K_d) 1 1).
  lia.
Defined.

(** X5.  heal() never gives lives back: it leaves 1 life to a player
    that has 3 and no life to any other, so on a player whose lives are
    not negative it never raises them, and two calls in a row always end
    at 0. *)
Theorem player_heal_never_raises (p : Player.t) :
  (Player.lives p = 3 -> Player.lives (Player.heal p) = 1) /\
  (Player.lives p <> 3 -> Player.lives (Player.heal p) = 0) /\
  (0 <= Player.lives p -> Player.lives (Player.heal p) <= Player.lives p) /\
  Player.lives (Player.heal (Player.heal p)) = 0.
Proof.
  rewrite !heal_lives.
  destruct (Player.lives p =? 3) eqn:E; simpl;
    [apply Z.eqb_eq in E|apply Z.eqb_neq in E]; repeat split; intros; lia.
Qed.

Lemma player_heal_never_raises_witness :
  let p := Player.take_damage
             (Player.__init__ small_textures 800 600 1 Player.K_a Player.K_d) 1 in
  Player.lives p = 2 /\ Player.lives (Player.heal p) = 0.
Proof.
  pose proof (player_heal_never_raises
                (Player.take_damage
                   (Player.__init__ small_textures 800 600 1 Player.K_a Player.K_d) 1))
    as H.
  destruct H as (_ & Hzero & _).
  split; [reflexivity|].
  apply Hzero. vm_compute; discriminate.
Defined.

(** ** Bullet: path and removal *)

Lemma update_centerx (b : Bullet.t) :
  centerx (Bullet.rect (Bullet.update b)) = centerx (Bullet.rect b).
Proof.
  unfold Bullet.update.
  destruct (Bullet.exploding b).
  - destruct (_ =? 0); [destruct (_ <? _)|]; reflexivity.
  - match goal with |- context [if ?c then _ else _] => destruct c end.
    + unfold Bullet.trigger_explosion; cbn [Bullet.rect].
      change (centerx (get_rect_center ?s ?c)) with (fst (center (get_rect_center s c))).
      rewrite center_get_rect_center. reflexivity.
    + reflexivity.
Qed.

Lemma update_exploding_rect (b : Bullet.t) :
  Bullet.exploding b = true -> Bullet.rect (Bullet.update b) = Bullet.rect b.
Proof.
  intros H; unfold Bullet.update; rewrite H.
  destruct (_ =? 0); [destruct (_ <? _)|]; reflexivity.
Qed.

(** X6.  A bullet never moves sideways: through any number of update()
    calls, flying or exploding, the horizontal centre of its rectangle is
    the one it started with.  While it flies, [n] calls move it by [n]
    times its speed vertically; once it explodes, its rectangle stays
    put. *)
Theorem bullet_path (b : Bullet.t) (n k : nat) :
  centerx (Bullet.rect (Bullet.updates n b)) = centerx (Bullet.rect b) /\
  (Bullet.exploding (Bullet.updates n b) = false ->
   rect_x (Bullet.rect (Bullet.updates n b)) = rect_x (Bullet.rect b) /\
   rect_y (Bullet.rect (Bullet.updates n b)) =
     rect_y (Bullet.rect b) + Z.of_nat n * Bullet.speed b) /\
  (Bullet.exploding (Bullet.updates n b) = true ->
   Bullet.rect (Bullet.updates (k + n) b) = Bullet.rect (Bullet.updates n b)).
Proof.
  split; [|split].
  - induction n as [|n IH]; [reflexivity|].
    rewrite updates_S, update_centerx. exact IH.
  - induction n as [|n IH]; intros H.
    + simpl; split; lia.
    + rewrite updates_S in *.
      destruct (update_flying_keeps _ H) as (Hf & Hs & Hr).
      destruct (IH Hf) as [Hx Hy].
      destruct (updates_flying _ _ Hf) as (Hsp & _ & _).
      rewrite Hr, Nat2Z.inj_succ; unfold Bullet.moved, set_y; cbn [rect_x rect_y].
      rewrite Hsp. split; [exact Hx|lia].
  - intros H; induction k as [|k IH]; [reflexivity|].
    change (S k + n)%nat with (S (k + n)). rewrite updates_S.
    rewrite update_exploding_rect; [exact IH|].
    apply (updates_exploding_stays n (k + n)); [lia|exact H].
Qed.

Lemma bullet_path_witness :
  let b := Bullet.__init__ small_textures 100 300 true in
  rect_y (Bullet.rect (Bullet.updates 7 b)) =
  rect_y (Bullet.rect b) + Z.of_nat 7 * Bullet.speed b.
Proof.
  pose proof (bullet_path (Bullet.__init__ small_textures 100 300 true) 7 0) as H.
  destruct H as (_ & Hfly & _).
  apply Hfly. reflexivity.
Defined.

(** X8.  A live flying bullet that an update() call sends off the screen
    begins its explosion on that call and is removed from its groups by
    the 15th update() call after it, by none before. *)
Theorem bullet_removed_after_leaving (b : Bullet.t) :
  Bullet.well_formed b ->
  Bullet.exploding b = false ->
  Bullet.explosion_timer b = 0 -> Bullet.explosion_index b = 0 ->
  Bullet.alive b = true ->
  bottom (Bullet.moved b) < 0 \/ top (Bullet.moved b) > SCREEN_HEIGHT ->
  let b0 := Bullet.update b in
  Bullet.exploding b0 = true /\
  Bullet.alive (Bullet.updates 15 b0) = false /\
  forall n, (n < 15)%nat -> Bullet.alive (Bullet.updates n b0) = true.
Proof.
  intros Hwf Hf Ht Hi Ha Hoff b0.
  assert (He : Bullet.exploding b0 = true) by now apply update_flying_trigger.
  split; [exact He|].
  revert He. unfold b0, Bullet.update. rewrite Hf. fold (Bullet.moved b).
  destruct ((bottom (Bullet.moved b) <? 0) || (top (Bullet.moved b) >? SCREEN_HEIGHT));
    [intros _|simpl; congruence].
  destruct b as [en im ex ii img r sp expl ei et gs].
  unfold Bullet.well_formed in Hwf; simpl in *. destruct Hwf as [_ H3]. subst.
  destruct ex as [|s1 [|s2 [|s3 [|s4 ex]]]]; try discriminate.
  destruct gs as [|g gs]; [discriminate|].
  split; [reflexivity|].
  intros n Hn.
  do 15 (destruct n as [|n]; [reflexivity|]).
  lia.
Qed.

Lemma bullet_removed_after_leaving_witness :
  let b := Bullet.add 1%nat (Bullet.__init__ small_textures 100 601 true) in
  let b0 := Bullet.update b in
  Bullet.exploding b0 = true /\
  Bullet.alive (Bullet.updates 15 b0) = false /\
  forall n, (n < 15)%nat -> Bullet.alive (Bullet.updates n b0) = true.
Proof.
  apply (bullet_removed_after_leaving
           (Bullet.add 1%nat (Bullet.__init__ small_textures 100 601 true)));
    try reflexivity.
  - split; reflexivity.
  - right. vm_compute. reflexivity.
Defined.

(** ** Bullet: animation frames *)

Lemma bullet_inv_init (load : loader) (x y : Z) (e : bool) :
  bullet_inv load e 0 (Bullet.__init__ load x y e).
Proof.
  unfold bullet_inv; simpl.
  repeat split; try reflexivity; try lia; discriminate.
Qed.

Lemma bullet_inv_update (load : loader) (e : bool) (n : nat) (b : Bullet.t) :
  bullet_inv load e n b -> bullet_inv load e (S n) (Bullet.update b).
Proof.
  destruct b as [en im ex ii img r sp expl ei et gs].
  unfold bullet_inv; simpl.
  intros (Him & Hex & Hii & Het & Hei & Hfly & Hexp); subst im ex.
  unfold Bullet.update; simpl.
  destruct expl.
  - (* exploding *)
    specialize (Hexp eq_refl). clear Hfly.
    destruct ((et + 1) mod 5 =? 0) eqn:E5.
    + apply Z.eqb_eq in E5.
      assert (Hnext : ei + 1 = (et + 1) / 5)
        by (subst ei; Z.to_euclidean_division_equations; lia).
      assert (H0 : 0 <= ei) by (subst ei; Z.to_euclidean_division_equations; lia).
      destruct (ei + 1 <? 3) eqn:E3; simpl.
      * apply Z.ltb_lt in E3.
        repeat split; try reflexivity; try lia; try discriminate.
        intros _ _.
        assert (Hc : ei + 1 = 1 \/ ei + 1 = 2) by lia.
        destruct Hc as [Hc|Hc]; rewrite Hc; reflexivity.
      * apply Z.ltb_ge in E3.
        repeat split; try reflexivity; try lia; try discriminate.
    + apply Z.eqb_neq in E5. simpl.
      assert (Hsame : ei = (et + 1) / 5)
        by (subst ei; Z.to_euclidean_division_equations; lia).
      repeat split; try reflexivity; try lia; try discriminate.
      intros _; exact Hexp.
  - (* flying *)
    destruct (Hfly eq_refl) as (Ht0 & Hpar & _). clear Hfly Hexp. subst et.
    assert (Hparity : (ii + 1) mod 2 = Z.of_nat (S n) mod 2).
    { rewrite Hpar, Nat2Z.inj_succ. unfold Z.succ.
      now rewrite Z.add_mod_idemp_l by lia. }
    assert (Hr : 0 <= (ii + 1) mod 2 < 2) by (apply Z.mod_pos_bound; lia).
    assert (Hc : (ii + 1) mod 2 = 0 \/ (ii + 1) mod 2 = 1) by lia.
    change (Z.of_nat (List.length (Bullet.images_of load e))) with 2.
    match goal with |- context [if ?c then _ else _] => destruct c end;
      unfold Bullet.trigger_explosion; simpl;
      repeat split; try reflexivity; try lia; try discriminate;
      try (intros _; repeat split; try lia);
      try (intros; subst ei; reflexivity);
      try (destruct Hc as [Hc|Hc]; revert Hparity; rewrite Hc; intros; reflexivity).
Qed.

Lemma bullet_inv_updates (load : loader) (x y : Z) (e : bool) (n : nat) :
  bullet_inv load e n (Bullet.updates n (Bullet.__init__ load x y e)).
Proof.
  induction n as [|n IH].
  - apply bullet_inv_init.
  - rewrite updates_S. now apply bullet_inv_update.
Qed.

(** X7.  From its construction on, a bullet's frame indices never leave
    their lists: after any number of update() calls the flight frame index
    is 0 or 1 (the parity of the number of calls while the bullet flies),
    the explosion frame index is the explosion timer divided by 5, and the
    image on show is the list entry at the index in use, so no lookup of
    update() can raise IndexError. *)
Theorem bullet_frames_in_range (load : loader) (x y : Z) (e : bool) (n : nat) :
  let b := Bullet.updates n (Bullet.__init__ load x y e) in
  Bullet.well_formed b /\
  0 <= Bullet.image_index b < 2 /\
  0 <= Bullet.explosion_timer b /\
  Bullet.explosion_index b = Bullet.explosion_timer b / 5 /\
  (Bullet.exploding b = false ->
   Bullet.image_index b = Z.of_nat n mod 2 /\
   getitem (Bullet.images b) (Bullet.image_index b) = Some (Bullet.image b)) /\
  (Bullet.exploding b = true -> Bullet.explosion_index b < 3 ->
   getitem (Bullet.explosion_images b) (Bullet.explosion_index b)
   = Some (Bullet.image b)).
Proof.
  intros b.
  destruct (bullet_inv_updates load x y e n)
    as (Him & Hex & Hii & Het & Hei & Hfly & Hexp).
  fold b in Him, Hex, Hii, Het, Hei, Hfly, Hexp.
  split; [unfold Bullet.well_formed; rewrite Him, Hex; split; reflexivity|].
  repeat (split; [assumption|]).
  split; [|exact Hexp].
  intros H; destruct (Hfly H) as (_ & H1 & H2); split; assumption.
Qed.

Lemma bullet_frames_in_range_witness :
  let b := Bullet.updates 3 (Bullet.__init__ small_textures 100 300 true) in
  Bullet.image_index b = Z.of_nat 3 mod 2 /\
  getitem (Bullet.images b) (Bullet.image_index b) = Some (Bullet.image b).
Proof.
  pose proof (bullet_frames_in_range small_textures 100 300 true 3) as H.
  destruct H as (_ & _ & _ & _ & Hfly & _).
  apply Hfly. reflexivity.
Defined.

(** ** Wall: visual states and reset *)

Ltac split_tests :=
  repeat
    (let E := fresh "E" in
     match goal with
     | |- context [if ?c then _ else _] => destruct c eqn:E
     end;
     first [apply Z.ltb_lt in E | apply Z.ltb_ge in E
           | apply Z.leb_le in E | apply Z.leb_gt in E
           | apply Z.eqb_eq in E | apply Z.eqb_neq in E
           | apply andb_true_iff in E; destruct E
           | apply andb_false_iff in E; destruct E]).

Lemma take_damage_image (load : loader) (w : Wall.t) :
  Wall.image (Wall.take_damage load w) =
  if (Wall.health w - 1 <=? 6) && (Wall.state_index w <? 2)
  then Wall.state_image load w (Wall.state_index w + 1)
  else Wall.image w.
Proof.
  unfold Wall.take_damage.
  destruct (_ && _); destruct (Wall.health w - 1 <=? 0); reflexivity.
Qed.

Lemma damaged_dead_stays (load : loader) (n : nat) (w : Wall.t) :
  Wall.alive w = false -> Wall.alive (Wall.damaged load n w) = false.
Proof.
  intros H; induction n as [|n IH]; [exact H|].
  rewrite damaged_S, take_damage_alive, IH. reflexivity.
Qed.

(** X9.  A wall that shows its first visual and has a health of at least
    7 keeps that visual while its health stays above 6, shows the second
    one for a single hit (the one that brings health to 6) and the third
    from the next hit on. *)
Theorem wall_state_trajectory (load : loader) (w : Wall.t) (n : nat) :
  Wall.state_index w = 0 -> 7 <= Wall.health w ->
  Wall.state_index (Wall.damaged load n w) =
  if Z.of_nat n <? Wall.health w - 6 then 0
  else if Z.of_nat n =? Wall.health w - 6 then 1 else 2.
Proof.
  intros H0 H7; induction n as [|n IH].
  - simpl Wall.damaged. rewrite H0. split_tests; simpl; lia.
  - rewrite damaged_S, take_damage_state_index, damaged_health, IH.
    rewrite Nat2Z.inj_succ.
    split_tests; simpl; lia.
Qed.

Lemma wall_state_trajectory_witness :
  let w := Wall.__init__ small_textures 100 400 in
  Wall.state_index (Wall.damaged small_textures 19 w) =
  if Z.of_nat 19 <? Wall.health w - 6 then 0
  else if Z.of_nat 19 =? Wall.health w - 6 then 1 else 2.
Proof.
  apply (wall_state_trajectory small_textures
           (Wall.__init__ small_textures 100 400) 19);
    [reflexivity|vm_compute; discriminate].
Defined.

(** X10.  From the constructor on, through any sequence of take_damage()
    and reset() calls, state_index points into the list of state textures
    and the image of the wall is the texture it points at, with magenta
    as its colour key. *)
Theorem wall_image_follows_state (load : loader) (x y : Z)
    (cs : list Wall.call) :
  let w := Wall.run load (Wall.__init__ load x y) cs in
  exists path,
    getitem (Wall.states w) (Wall.state_index w) = Some path /\
    Wall.image w = remove_color (load path) MAGENTA.
Proof.
  induction cs as [|c cs IH] using rev_ind.
  - eexists; split; reflexivity.
  - cbv zeta in *. rewrite run_snoc.
    set (w := Wall.run load (Wall.__init__ load x y) cs) in *.
    assert (Hst : Wall.states w = Wall.states (Wall.__init__ load x y))
      by apply run_states.
    assert (Hsi : 0 <= Wall.state_index w <= 2)
      by (apply run_state_index; simpl; lia).
    simpl in Hst.
    destruct c; simpl Wall.step.
    + rewrite take_damage_states, take_damage_state_index, take_damage_image.
      destruct ((Wall.health w - 1 <=? 6) && (Wall.state_index w <? 2)) eqn:E;
        [|exact IH].
      apply andb_true_iff in E; destruct E as [_ E]; apply Z.ltb_lt in E.
      unfold Wall.state_image. rewrite Hst.
      assert (Hc : Wall.state_index w + 1 = 1 \/ Wall.state_index w + 1 = 2) by lia.
      destruct Hc as [Hc|Hc]; rewrite Hc; eexists; split; reflexivity.
    + unfold Wall.reset, Wall.state_image; simpl. rewrite Hst.
      eexists; split; reflexivity.
Qed.

(** X11.  reset() leaves the wall in the groups it is in and in no
    other: a wall that take_damage() has removed is not brought back by
    reset(), although its health is 10 again; a wall that is in a group
    when it is reset is removed by the 10th take_damage() call after the
    reset and by none before. *)
Theorem wall_reset_keeps_membership (load : loader) (w : Wall.t) (n k : nat) :
  Wall.groups (Wall.reset load w) = Wall.groups w /\
  ((1 <= n)%nat -> Wall.health w <= Z.of_nat n ->
   Wall.alive (Wall.reset load (Wall.damaged load n w)) = false /\
   Wall.health (Wall.reset load (Wall.damaged load n w)) = 10) /\
  (Wall.alive w = true ->
   (Wall.alive (Wall.damaged load k (Wall.reset load w)) = false <->
    (10 <= k)%nat)).
Proof.
  split; [reflexivity|split].
  - intros H1 Hh; split; [|reflexivity].
    change (Wall.alive (Wall.reset load (Wall.damaged load n w)))
      with (Wall.alive (Wall.damaged load n w)).
    destruct (Wall.alive w) eqn:Ha.
    + apply damaged_alive; [exact Ha|split; assumption].
    + now apply damaged_dead_stays.
  - intros Ha.
    rewrite (damaged_alive load k (Wall.reset load w)) by exact Ha.
    simpl Wall.health. lia.
Qed.

Lemma wall_reset_keeps_membership_witness :
  let w := Wall.add 1%nat (Wall.__init__ small_textures 100 400) in
  Wall.alive (Wall.reset small_textures (Wall.damaged small_textures 25 w)) = false /\
  (Wall.alive (Wall.damaged small_textures 10 (Wall.reset small_textures w)) = false
   <-> (10 <= 10)%nat).
Proof.
  pose proof (wall_reset_keeps_membership small_textures
                (Wall.add 1%nat (Wall.__init__ small_textures 100 400)) 25 10) as H.
  destruct H as (_ & Hdead & Hlive).
  split.
  - apply Hdead; [lia|vm_compute; discriminate].
  - apply Hlive. reflexivity.
Defined.

(** ** Enemy: cooldown, damage and patrol *)

Lemma cooling_down (k : nat) (e : Enemy.t) :
  Enemy.can_shoot e = false -> 0 <= Enemy.shooting_timer e ->
  (Z.of_nat k <= Enemy.shooting_timer e ->
   Enemy.can_shoot (Enemy.updates k e) = false /\
   Enemy.shooting_timer (Enemy.updates k e) = Enemy.shooting_timer e - Z.of_nat k) /\
  (Enemy.shooting_timer e < Z.of_nat k ->
   Enemy.can_shoot (Enemy.updates k e) = true).
Proof.
  intros Hc Ht; induction k as [|k [IHlow IHhigh]].
  - split; [intros _; simpl; split; [exact Hc|lia]|simpl; lia].
  - rewrite updates_S_enemy, Nat2Z.inj_succ.
    destruct (update_cooldown (Enemy.updates k e)) as [Hpos Hzero].
    split.
    + intros Hk. destruct IHlow as [Hc' Ht']; [lia|].
      destruct Hpos as [Ht'' Hc'']; [lia|].
      rewrite Ht'', Hc''. split; [exact Hc'|lia].
    + intros Hk.
      destruct (Z.lt_ge_cases (Enemy.shooting_timer e) (Z.of_nat k)) as [Hlt|Hge].
      * specialize (IHhigh Hlt).
        destruct (Z.lt_ge_cases 0 (Enemy.shooting_timer (Enemy.updates k e)))
          as [Hp|Hn].
        -- destruct (Hpos Hp) as [_ Hsame]. now rewrite Hsame.
        -- now destruct (Hzero Hn).
      * destruct IHlow as [_ Ht']; [lia|].
        destruct Hzero as [_ Htrue]; [lia|exact Htrue].
Qed.

(** X12.  After a shot, with a cooldown that is not negative, the enemy
    cannot shoot during the next shooting_cooldown update() calls and can
    shoot again from the call after those on: can_shoot is set after [k]
    calls exactly when [k] exceeds shooting_cooldown. *)
Theorem enemy_ready_after_cooldown (load : loader) (e : Enemy.t) (k : nat) :
  Enemy.can_shoot e = true -> 0 <= Enemy.shooting_cooldown e ->
  let e' := fst (Enemy.shoot load e) in
  (Enemy.can_shoot (Enemy.updates k e') = true <->
   Enemy.shooting_cooldown e < Z.of_nat k) /\
  (Enemy.shooting_cooldown e < Z.of_nat k ->
   snd (Enemy.shoot load (Enemy.updates k e')) <> None) /\
  (Z.of_nat k <= Enemy.shooting_cooldown e ->
   snd (Enemy.shoot load (Enemy.updates k e')) = None).
Proof.
  intros Hc Hcd e'.
  assert (Hc' : Enemy.can_shoot e' = false)
    by (unfold e', Enemy.shoot; rewrite Hc; reflexivity).
  assert (Ht' : Enemy.shooting_timer e' = Enemy.shooting_cooldown e)
    by (unfold e', Enemy.shoot; rewrite Hc; reflexivity).
  destruct (cooling_down k e' Hc') as [Hlow Hhigh]; [lia|].
  rewrite Ht' in Hlow, Hhigh.
  assert (Hiff : Enemy.can_shoot (Enemy.updates k e') = true <->
                 Enemy.shooting_cooldown e < Z.of_nat k).
  { split; [|exact Hhigh].
    intros Htrue.
    destruct (Z.lt_ge_cases (Enemy.shooting_cooldown e) (Z.of_nat k)) as [|Hge];
      [assumption|].
    destruct (Hlow Hge) as [Hfalse _]. congruence. }
  split; [exact Hiff|split].
  - intros Hk. unfold Enemy.shoot. rewrite (Hhigh Hk). discriminate.
  - intros Hk. unfold Enemy.shoot. destruct (Hlow Hk) as [Hfalse _].
    now rewrite Hfalse.
Qed.

Lemma enemy_ready_after_cooldown_witness :
  let e := Enemy.__init__ (fun _ => None) 400 100 "Enemy1.png" in
  let e' := fst (Enemy.shoot small_textures e) in
  Enemy.can_shoot (Enemy.updates 2 e') = true <->
  Enemy.shooting_cooldown e < Z.of_nat 2.
Proof.
  apply (enemy_ready_after_cooldown small_textures
           (Enemy.__init__ (fun _ => None) 400 100 "Enemy1.png") 2);
    [reflexivity|vm_compute; discriminate].
Defined.

Lemma enemy_take_damage_health (e : Enemy.t) :
  Enemy.health (Enemy.take_damage e) = Enemy.health e - 1.
Proof.
  unfold Enemy.take_damage; simpl.
  destruct (Enemy.health e - 1 <=? 0); reflexivity.
Qed.

Lemma enemy_take_damage_alive (e : Enemy.t) :
  enemy_alive (Enemy.take_damage e) =
  enemy_alive e && negb (Enemy.health e - 1 <=? 0).
Proof.
  unfold Enemy.take_damage, enemy_alive; simpl.
  destruct (Enemy.health e - 1 <=? 0); simpl;
    destruct (Enemy.groups e); reflexivity.
Qed.

(** X13.  Each Enemy.take_damage() call lowers health by exactly 1 and
    touches nothing else but the group membership; an enemy that is in a
    group is removed on the call that leaves a health of 0 or less, so it
    is gone after [n] calls exactly when [n] is at least 1 and at least the
    starting health.  The constructor gives health 1: the first hit
    removes the enemy. *)
Theorem enemy_take_damage_counts_down (e : Enemy.t) (n : nat)
    (try_load : try_loader) (x y : Z) (image_path : string) (g : nat) :
  Enemy.health (enemy_damaged n e) = Enemy.health e - Z.of_nat n /\
  Enemy.rect (enemy_damaged n e) = Enemy.rect e /\
  Enemy.direction (enemy_damaged n e) = Enemy.direction e /\
  Enemy.can_shoot (enemy_damaged n e) = Enemy.can_shoot e /\
  (enemy_alive e = true ->
   (enemy_alive (enemy_damaged n e) = false <->
    (1 <= n)%nat /\ Enemy.health e <= Z.of_nat n)) /\
  enemy_alive (Enemy.take_damage (Enemy.add g (Enemy.__init__ try_load x y image_path)))
  = false.
Proof.
  assert (Hh : forall m, Enemy.health (enemy_damaged m e) = Enemy.health e - Z.of_nat m).
  { induction m as [|m IH]; [simpl; lia|].
    change (enemy_damaged (S m) e) with (Enemy.take_damage (enemy_damaged m e)).
    rewrite enemy_take_damage_health, IH; lia. }
  split; [apply Hh|].
  split; [|split; [|split; [|split]]].
  - induction n as [|n IH]; [reflexivity|].
    change (enemy_damaged (S n) e) with (Enemy.take_damage (enemy_damaged n e)).
    unfold Enemy.take_damage at 1; simpl.
    destruct (_ <=? 0); simpl; exact IH.
  - induction n as [|n IH]; [reflexivity|].
    change (enemy_damaged (S n) e) with (Enemy.take_damage (enemy_damaged n e)).
    unfold Enemy.take_damage at 1; simpl.
    destruct (_ <=? 0); simpl; exact IH.
  - induction n as [|n IH]; [reflexivity|].
    change (enemy_damaged (S n) e) with (Enemy.take_damage (enemy_damaged n e)).
    unfold Enemy.take_damage at 1; simpl.
    destruct (_ <=? 0); simpl; exact IH.
  - intros Ha; induction n as [|n IH].
    + simpl; rewrite Ha; split; [discriminate|lia].
    + change (enemy_damaged (S n) e) with (Enemy.take_damage (enemy_damaged n e)).
      rewrite enemy_take_damage_alive, Hh.
      rewrite andb_false_iff, negb_false_iff, Z.leb_le, IH. lia.
  - reflexivity.
Qed.

Lemma enemy_take_damage_counts_down_witness :
  let e := Enemy.add 1%nat (Enemy.__init__ (fun _ => None) 400 100 "Enemy1.png") in
  enemy_alive (enemy_damaged 1 e) = false <->
  (1 <= 1)%nat /\ Enemy.health e <= Z.of_nat 1.
Proof.
  pose proof (enemy_take_damage_counts_down
                (Enemy.add 1%nat (Enemy.__init__ (fun _ => None) 400 100 "Enemy1.png"))
                1 (fun _ => None) 400 100 "Enemy1.png" 1%nat) as H.
  destruct H as (_ & _ & _ & _ & Hal & _).
  apply Hal. reflexivity.
Defined.

Lemma update_shape (e : Enemy.t) :
  rect_h (Enemy.rect (Enemy.update e)) = rect_h (Enemy.rect e) /\
  rect_y (Enemy.rect e) <= rect_y (Enemy.rect (Enemy.update e)) /\
  Enemy.health (Enemy.update e) = Enemy.health e /\
  (Enemy.direction (Enemy.update e) = Enemy.direction e \/
   Enemy.direction (Enemy.update e) = Enemy.direction e * -1) /\
  Enemy.current_frame (Enemy.update e) =
    (if Enemy.current_frame e + 1 >=? Enemy.move_delay e then 0
     else Enemy.current_frame e + 1).
Proof.
  unfold Enemy.update.
  destruct (_ >=? _); [destruct (_ || _)|];
    destruct (Enemy.shooting_timer e >? 0); simpl; repeat split; auto; lia.
Qed.

(** X14.  An enemy as the constructor builds it keeps, through any number
    of update() calls, a direction of 1 or -1, its speed, move_delay,
    health and size; its frame counter is the number of calls modulo 10,
    so its rectangle changes on every 10th call only; and it never moves
    up. *)
Theorem enemy_patrol_invariants (try_load : try_loader) (x y : Z)
    (image_path : string) (n : nat) :
  let e0 := Enemy.__init__ try_load x y image_path in
  let e := Enemy.updates n e0 in
  (Enemy.direction e = 1 \/ Enemy.direction e = -1) /\
  Enemy.current_frame e = Z.of_nat n mod 10 /\
  Enemy.speed e = 10 /\ Enemy.move_delay e = 10 /\ Enemy.health e = 1 /\
  rect_w (Enemy.rect e) = rect_w (Enemy.rect e0) /\
  rect_h (Enemy.rect e) = rect_h (Enemy.rect e0) /\
  rect_y (Enemy.rect e0) <= rect_y (Enemy.rect e) /\
  (Z.of_nat (S n) mod 10 <> 0 ->
   Enemy.rect (Enemy.updates (S n) e0) = Enemy.rect e).
Proof.
  intros e0 e.
  assert (Hinv : (Enemy.direction e = 1 \/ Enemy.direction e = -1) /\
                 Enemy.current_frame e = Z.of_nat n mod 10 /\
                 Enemy.speed e = 10 /\ Enemy.move_delay e = 10 /\
                 Enemy.health e = 1 /\
                 rect_w (Enemy.rect e) = rect_w (Enemy.rect e0) /\
                 rect_h (Enemy.rect e) = rect_h (Enemy.rect e0) /\
                 rect_y (Enemy.rect e0) <= rect_y (Enemy.rect e)).
  { unfold e; clear e. induction n as [|n IH].
    - simpl. repeat split; auto; lia.
    - rewrite updates_S_enemy.
      set (e := Enemy.updates n e0) in *.
      destruct IH as (Hd & Hf & Hs & Hm & Hh & Hw & Hht & Hy).
      destruct (update_constants e) as (Hs' & Hm' & _ & Hw').
      destruct (update_shape e) as (Hht' & Hy' & Hh' & Hd' & Hf').
      rewrite Hs', Hm', Hw', Hht', Hh', Hf', Hm, Hf.
      split; [destruct Hd' as [Hd'|Hd']; rewrite Hd'; lia|].
      split; [|repeat split; try assumption; lia].
      rewrite Nat2Z.inj_succ. unfold Z.succ.
      destruct (Z.of_nat n mod 10 + 1 >=? 10) eqn:E;
        [rewrite Z.geb_leb in E; apply Z.leb_le in E
        |rewrite Z.geb_leb in E; apply Z.leb_gt in E];
        Z.to_euclidean_division_equations; lia. }
  destruct Hinv as (Hd & Hf & Hs & Hm & Hh & Hw & Hht & Hy).
  repeat (split; [assumption|]).
  intros Hne. rewrite updates_S_enemy. fold e.
  destruct (update_waits e) as (Hr & _); [|exact Hr].
  rewrite Hf, Hm. rewrite Nat2Z.inj_succ in Hne. unfold Z.succ in Hne.
  Z.to_euclidean_division_equations; lia.
Qed.

Lemma enemy_patrol_invariants_witness :
  let e0 := Enemy.__init__ (fun _ => None) 400 100 "Enemy1.png" in
  Enemy.rect (Enemy.updates (S 3) e0) = Enemy.rect (Enemy.updates 3 e0).
Proof.
  pose proof (enemy_patrol_invariants (fun _ => None) 400 100 "Enemy1.png" 3) as H.
  destruct H as (_ & _ & _ & _ & _ & _ & _ & _ & Hstill).
  apply Hstill. vm_compute. discriminate.
Defined.

(** X15.  An enemy that stands strictly inside the screen and whose move
    carries it to an edge turns round and steps down 20 on that call, and
    its next move, move_delay calls later, brings it back to the
    horizontal position it had, still facing the new way and without a
    second step down. *)
Theorem enemy_bounce (e : Enemy.t) :
  1 <= Enemy.move_delay e ->
  Enemy.move_delay e <= Enemy.current_frame e + 1 ->
  0 < left (Enemy.rect e) -> right (Enemy.rect e) < SCREEN_WIDTH ->
  (let x' := rect_x (Enemy.rect e) + Enemy.speed e * Enemy.direction e in
   SCREEN_WIDTH <= x' + rect_w (Enemy.rect e) \/ x' <= 0) ->
  let e1 := Enemy.update e in
  let e2 := Enemy.updates (Z.to_nat (Enemy.move_delay e)) e1 in
  Enemy.direction e1 = Enemy.direction e * -1 /\
  rect_y (Enemy.rect e1) = rect_y (Enemy.rect e) + 20 /\
  rect_x (Enemy.rect e2) = rect_x (Enemy.rect e) /\
  Enemy.direction e2 = Enemy.direction e * -1 /\
  rect_y (Enemy.rect e2) = rect_y (Enemy.rect e) + 20.
Proof.
  intros Hmd Hmove Hl Hr Hedge e1 e2.
  destruct (update_moves e Hmove) as (Hf1 & Hr1 & Hd1).
  destruct (update_constants e) as (Hs1 & Hm1 & _ & _).
  fold e1 in Hf1, Hr1, Hd1, Hs1, Hm1.
  assert (Htest : (right (set_x (rect_x (Enemy.rect e)
                                 + Enemy.speed e * Enemy.direction e) (Enemy.rect e))
                   >=? SCREEN_WIDTH)
                  || (left (set_x (rect_x (Enemy.rect e)
                                   + Enemy.speed e * Enemy.direction e) (Enemy.rect e))
                      <=? 0) = true).
  { unfold right, left, set_x; simpl.
    rewrite orb_true_iff, Z.geb_leb, !Z.leb_le. exact Hedge. }
  rewrite Htest in Hr1, Hd1.
  split; [exact Hd1|]. split; [rewrite Hr1; reflexivity|].
  set (k := Z.to_nat (Enemy.move_delay e - 1)).
  assert (Hk : Z.to_nat (Enemy.move_delay e) = S k) by (unfold k; lia).
  unfold e2; rewrite Hk, updates_S_enemy.
  destruct (updates_wait k e1) as (Hrk & Hdk & Hfk & Hsk & Hmk);
    [rewrite Hf1, Hm1; unfold k; lia|].
  set (ek := Enemy.updates k e1) in *.
  destruct (update_moves ek) as (_ & Hr2 & Hd2);
    [rewrite Hmk, Hfk, Hf1, Hm1; unfold k; lia|].
  rewrite Hrk, Hsk, Hdk, Hs1, Hd1, Hr1 in Hr2.
  rewrite Hrk, Hsk, Hdk, Hs1, Hd1, Hr1 in Hd2.
  assert (Hno : forall r,
            rect_x r = rect_x (Enemy.rect e) -> rect_w r = rect_w (Enemy.rect e) ->
            (right r >=? SCREEN_WIDTH) || (left r <=? 0) = false).
  { intros r Hx Hw. unfold right, left in *. rewrite Hx, Hw.
    apply orb_false_iff; split.
    - rewrite Z.geb_leb. apply Z.leb_gt. lia.
    - apply Z.leb_gt. lia. }
  rewrite Hno in Hr2, Hd2 by (unfold set_x, set_y; cbn [rect_x rect_w]; lia).
  rewrite Hr2, Hd2. unfold set_x, set_y; cbn [rect_x rect_y].
  repeat split; lia.
Qed.

Lemma enemy_bounce_witness :
  let e := Enemy.updates 9 (Enemy.__init__ (fun _ => None) 770 100 "Enemy1.png") in
  let e1 := Enemy.update e in
  let e2 := Enemy.updates (Z.to_nat (Enemy.move_delay e)) e1 in
  Enemy.direction e1 = Enemy.direction e * -1 /\
  rect_y (Enemy.rect e1) = rect_y (Enemy.rect e) + 20 /\
  rect_x (Enemy.rect e2) = rect_x (Enemy.rect e) /\
  Enemy.direction e2 = Enemy.direction e * -1 /\
  rect_y (Enemy.rect e2) = rect_y (Enemy.rect e) + 20.
Proof.
  apply (enemy_bounce
           (Enemy.updates 9 (Enemy.__init__ (fun _ => None) 770 100 "Enemy1.png")));
    vm_compute; try discriminate; try reflexivity.
  left; discriminate.
Defined.
